(** * go-xmpp: the conversation engine of [src/xmpp/xmpp.go]

  A shallow embedding of the filter registry ([AddFilter],
  [RemoveFilter]), the correlation matcher ([IQResult]), the
  request/response helper ([SendRecv]) and the two goroutine bodies
  ([sender], [receiver]), followed by the properties proved of them.

  Every goroutine is modelled in isolation: the operations it performs
  on channels, on the log and on the stream are recorded, in program
  order, in a trace of events, and the values it obtains from its
  environment (what [stream.Next] returns, what a channel receive
  yields) are arguments of the model.  Blocking and scheduling belong
  to the Go runtime and are not part of the model.  The runs of
  [SendRecv] and of the receiver in which an operation panics are part
  of it: they show what the deferred calls do. *)

From Stdlib Require Import ZArith List String Bool Lia Sorted.
From Stdlib Require DecimalString DecimalZ DecimalPos.
Import ListNotations.

Set Implicit Arguments.

(** ** Machine integers *)

(** [FilterID] is an [int64]; [x.nextFilterID++] wraps around. *)
Module Int64.
Definition min_int : Z := -9223372036854775808.
Definition max_int : Z := 9223372036854775807.
Definition modulus : Z := 18446744073709551616.

Definition wrap (z : Z) : Z := ((z - min_int) mod modulus + min_int)%Z.

(** [i++] *)
Definition incr (z : Z) : Z := wrap (z + 1).

Definition in_range (z : Z) : Prop := (min_int <= z <= max_int)%Z.

End Int64.

(** ** encoding/xml *)

Module xml.
Record Name := mkName { Space : string; Local : string }.
Record Attr := mkAttr { AttrName : Name; Value : string }.
Record StartElement := mkStart { StartName : Name; StartAttr : list Attr }.
Record EndElement := mkEnd { EndName : Name }.
End xml.

(** ** Stanzas and interface values *)

(** Modelled from the spec: the declaration of the struct [IQ] is in
  another file of the package.  The spec describes a Query as carrying
  "a correlation identifier and a kind (get/set/result/error)"; the
  source reads the identifier as [iq.ID] and its comment on [IQResult]
  shows the kind as the attribute [type="result"]. *)
Record IQ := mkIQ { ID : string; Type_ : string }.

(** [&IQ{}] *)
Definition zeroIQ : IQ := mkIQ EmptyString EmptyString.

(** Uniquely identifies a stream filter. *)
Definition FilterID := Z.

(** Dynamic type of an [interface{}] value, as [%T] prints it. *)
Inductive gotype :=
| TNil          (* <nil> *)
| TError        (* *xmpp.Error *)
| TIQ           (* *xmpp.IQ *)
| TMessage      (* *xmpp.Message *)
| TPresence     (* *xmpp.Presence *)
| TGoError.     (* some implementation of the interface error *)

(** Values of the interface [error] that this file creates or passes on. *)
Inductive error :=
| StreamError (msg : string)        (* returned by the stream *)
| InvalidFilterID (fid : FilterID)  (* a FilterID used as an error *)
| ExpectedIQ (t : gotype).          (* fmt.Errorf("Expected IQ, for %T", stanza) *)

(** A channel is identified by the allocation that made it. *)
Definition chan := nat.

Inductive logmsg :=
| LogCloseStream                               (* "Close XMPP stream" *)
| LogCloseReceiver                             (* "Close XMPP receiver" *)
| LogClose                                     (* "Close XMPP" *)
| LogUnexpected (start : xml.StartElement)     (* "Error. Unexected element: %T %v" *)
| LogDecodeFailed (e : error).                 (* "Error. Failed to decode element. " *)

(** ** Package xmpp *)

Module xmpp.

(** Implements the error interface for a FilterID:
    [fmt.Sprintf("Invalid filter id: %d", fid)]. *)
Definition FilterID_Error (fid : FilterID) : string :=
  ("Invalid filter id: "
   ++ DecimalString.NilZero.string_of_int (Z.to_int fid))%string.

Section Conversation.

(** The stanza structs [Error], [Message] and [Presence] are declared
    in other files of the package; nothing here reads their fields.
    They are parameters, together with the zero values [&Error{}],
    [&Message{}] and [&Presence{}]. *)
Variables Error Message Presence : Type.
Variable zeroError : Error.
Variable zeroMessage : Message.
Variable zeroPresence : Presence.

(** What a [chan interface{}] carries: a pointer to a stanza, a
    transport failure, or nil. *)
Inductive value :=
| VNil
| VError (e : Error)
| VIQ (iq : IQ)
| VMessage (msg : Message)
| VPresence (p : Presence)
| VErr (e : error).

Definition dyn_type (v : value) : gotype :=
  match v with
  | VNil => TNil
  | VError _ => TError
  | VIQ _ => TIQ
  | VMessage _ => TMessage
  | VPresence _ => TPresence
  | VErr _ => TGoError
  end.

(** Interface used to test if a stanza matches some
    application-defined conditions; [MatcherFunc] adapts a plain func. *)
Definition Matcher := value -> bool.
Definition MatcherFunc (fn : value -> bool) : Matcher := fn.
Definition Match (m : Matcher) (v : value) : bool := m v.

Record filter := mkFilter { id : FilterID; m : Matcher; ch : chan }.

(** The fields [In], [Out], [nextFilterID] and [filters] of [XMPP].
    The field [stream] is the variable [stream] below, [JID] is not
    read in this file, and [filterLock] is the mutex that makes
    [AddFilter] and [RemoveFilter] single steps. *)
Record XMPP := mkXMPP {
  In : chan;
  Out : chan;
  nextFilterID : FilterID;
  filters : list filter
}.

(** ** Effects *)

Inductive event :=
| EvLog (msg : logmsg)
| EvChanSend (c : chan) (v : value)             (* c <- v *)
| EvChanRecv (c : chan) (v : value)             (* v := <-c *)
| EvChanClose (c : chan)                        (* close(c) *)
| EvNext (r : xml.StartElement + error)         (* stream.Next() *)
| EvDecode (v : value) (start : xml.StartElement) (* stream.Decode(v, start) *)
| EvSend (v : value)                            (* stream.Send(v) *)
| EvSendEnd (e : xml.EndElement).               (* stream.SendEnd(e) *)

(** The state a call runs in: the conversation and the number of
    channels made so far ([make] returns the next one). *)
Record state := mkState { made : nat; conv : XMPP }.

Definition M (A : Type) : Type := state -> A * list event * state.

Definition ret {A} (a : A) : M A := fun s => (a, [], s).

Definition bind {A B} (c : M A) (k : A -> M B) : M B :=
  fun s =>
    let '(a, t1, s1) := c s in
    let '(b, t2, s2) := k a s1 in
    (b, t1 ++ t2, s2).

Definition result {A} (r : A * list event * state) : A := fst (fst r).
Definition trace {A} (r : A * list event * state) : list event := snd (fst r).
Definition final {A} (r : A * list event * state) : state := snd r.


Notation "x <- c ;; k" := (bind c (fun x => k))
  (at level 61, c at next level, right associativity).
Notation "c ;; k" := (bind c (fun _ => k))
  (at level 61, right associativity).
Notation "' p <- c ;; k" := (bind c (fun x => let 'p := x in k))
  (at level 61, p pattern, c at next level, right associativity).

Definition emit (e : event) : M unit := fun s => (tt, [e], s).

(** [x], the receiver of the method being run *)
Definition this : M XMPP := fun s => (conv s, [], s).
Definition store (x : XMPP) : M unit := fun s => (tt, [], mkState (made s) x).

(** [make(chan interface{})] *)
Definition make_chan : M chan :=
  fun s => (made s, [], mkState (S (made s)) (conv s)).

Definition chan_send (c : chan) (v : value) : M unit := emit (EvChanSend c v).
Definition chan_close (c : chan) : M unit := emit (EvChanClose c).

(** [<-c], where [v] is what the receive yields (nil when [c] has been
    closed) *)
Definition chan_recv (c : chan) (v : value) : M value :=
  fun s => (v, [EvChanRecv c v], s).

Definition log (msg : logmsg) : M unit := emit (EvLog msg).

(** [defer d] at the head of a [body] that returns: [d] runs when
    [body] returns, and its own results are dropped.  [M] has the runs
    in which every operation completes; [deferP] below is [defer] for
    the runs in which an operation of [body] may panic. *)
Definition defer {A B} (d : M B) (body : M A) : M A :=
  a <- body ;; d ;; ret a.

(** ** The stream *)

(** Modelled from the spec: the type [Stream] and its methods are
    declared in another file of the package.  The calls [Next], [Send]
    and [SendEnd] are recorded as events.  For [Decode] the spec gives
    "decode(targetVariant, elementStart) -> error: fully materialize the
    given element into the already-selected concrete stanza variant":
    it fills the struct [v] points to and returns an error or nil.  It
    receives the interface value [v] by value, so the caller holds a
    value of the same dynamic type afterwards, and nil stays nil. *)
Record Stream := mkStream {
  Decode : value -> xml.StartElement -> value * option error;
  Decode_type : forall v start, dyn_type (fst (Decode v start)) = dyn_type v
}.

Variable stream : Stream.

Definition stream_next (r : xml.StartElement + error) : M unit := emit (EvNext r).

Definition stream_decode (v : value) (start : xml.StartElement)
  : M (value * option error) :=
  fun s => (Decode stream v start, [EvDecode v start], s).

Definition stream_send (v : value) : M unit := emit (EvSend v).
Definition stream_send_end (e : xml.EndElement) : M unit := emit (EvSendEnd e).

(** ** The conversation *)

(** [newXMPP], when [n] channels have been made before: [In] and [Out]
    are made, the counter and the filter list start at their zero
    values. *)
Definition newXMPP (n : nat) : state :=
  mkState (S (S n)) (mkXMPP n (S n) 0%Z []).

(** The identifiers in the registry, in list order. *)
Definition ids (s : state) : list FilterID := map id (filters (conv s)).

Definition set_nextFilterID (fid : FilterID) (x : XMPP) : XMPP :=
  mkXMPP (In x) (Out x) fid (filters x).

Definition set_filters (fs : list filter) (x : XMPP) : XMPP :=
  mkXMPP (In x) (Out x) (nextFilterID x) fs.

(** Add a filter that routes matching stanzas to the returned channel.
    The mutex makes the body one step with respect to the other calls
    on the registry. *)
Definition AddFilter (m0 : Matcher) : M (FilterID * chan) :=
  (* Allocate chan and id. *)
  c <- make_chan ;;
  x <- this ;;
  let fid := nextFilterID x in
  store (set_nextFilterID (Int64.incr fid) x) ;;
  (* Insert at head of filters list. *)
  x <- this ;;
  store (set_filters (mkFilter fid m0 c :: filters x) x) ;;
  ret (fid, c).

(** The [range] loop of [RemoveFilter]: index and entry of the first
    filter whose id is [fid], scanning from index [i]. *)
Fixpoint find_filter (fid : FilterID) (fs : list filter) (i : nat)
  : option (nat * filter) :=
  match fs with
  | [] => None
  | f :: rest =>
      if negb (id f =? fid)%Z then find_filter fid rest (S i)
      else Some (i, f)
  end.

(** Remove a filter previously added with AddFilter. *)
Definition RemoveFilter (fid : FilterID) : M (option error) :=
  x <- this ;;
  match find_filter fid (filters x) 0 with
  | Some (i, f) =>
      (* Close the channel. *)
      chan_close (ch f) ;;
      (* Remove from list. *)
      store (set_filters (firstn i (filters x) ++ skipn (S i) (filters x)) x) ;;
      ret None
  | None =>
      (* Filter not found. *)
      ret (Some (InvalidFilterID fid))
  end.

(** Matcher to identify a <iq id="..." type="result" /> stanza with the
    given id. *)
Definition IQResult (id0 : string) : Matcher :=
  MatcherFunc (fun v =>
    match v with
    | VIQ iq => if negb (ID iq =? id0)%string then false else true
    | _ => false
    end).

Definition stream_end : xml.EndElement :=
  xml.mkEnd (xml.mkName "stream" "stream").

Definition Close : M unit :=
  log LogClose ;;
  stream_send_end stream_end.

(** The [range x.Out] loop of [sender]; [outgoing] lists the values the
    channel yields before it is closed. *)
Fixpoint sender_loop (outgoing : list value) : M unit :=
  match outgoing with
  | [] => ret tt
  | v :: rest =>
      x <- this ;;
      chan_recv (Out x) v ;;
      stream_send v ;;
      sender_loop rest
  end.

Definition sender (outgoing : list value) : M unit :=
  (* Send outgoing elements to the stream until the channel is closed. *)
  sender_loop outgoing ;;
  (* Close the stream. *)
  log LogCloseStream ;;
  Close.

(** The [switch start.Name.Local] of [receiver]. *)
Definition new_stanza (start : xml.StartElement) : M value :=
  let name := xml.Local (xml.StartName start) in
  if (name =? "error")%string then ret (VError zeroError)
  else if (name =? "iq")%string then ret (VIQ zeroIQ)
  else if (name =? "message")%string then ret (VMessage zeroMessage)
  else if (name =? "presence")%string then ret (VPresence zeroPresence)
  else log (LogUnexpected start) ;; ret VNil.

(** The [range x.filters] loop of [receiver], with its flag
    [filtered]. *)
Fixpoint deliver (fs : list filter) (v : value) (filtered : bool) : M bool :=
  match fs with
  | [] => ret filtered
  | f :: rest =>
      if Match (m f) v
      then chan_send (ch f) v ;; deliver rest v true
      else deliver rest v filtered
  end.

Definition dispatch (v : value) : M unit :=
  x <- this ;;
  filtered <- deliver (filters x) v false ;;
  if negb filtered then chan_send (In x) v else ret tt.

(** One turn of the loop of [receiver] after [stream.Next] has returned
    [start] without error. *)
Definition receive (start : xml.StartElement) : M unit :=
  v <- new_stanza start ;;
  '(v, err) <- stream_decode v start ;;
  match err with
  | Some e => log (LogDecodeFailed e)
  | None => ret tt
  end ;;
  dispatch v.

(** The loop of [receiver]: [stream.Next] returns the elements of
    [incoming], one per turn, and then fails with [err]. *)
Fixpoint receiver_loop (incoming : list xml.StartElement) (err : error)
  : M unit :=
  match incoming with
  | [] =>
      stream_next (inr err) ;;
      x <- this ;;
      chan_send (In x) (VErr err)
  | start :: rest =>
      stream_next (inl start) ;;
      receive start ;;
      receiver_loop rest err
  end.

Definition receiver (incoming : list xml.StartElement) (err : error) : M unit :=
  defer (log LogCloseReceiver ;;
         Close ;;
         x <- this ;;
         chan_close (In x))
        (receiver_loop incoming err).

(** ** Histories of the registry *)

(** A call on the registry, and a sequence of such calls run one after
    the other; the result lists the identifiers the [AddFilter] calls
    returned, in call order. *)
Inductive call :=
| CallAdd (m0 : Matcher)
| CallRemove (fid : FilterID).

Fixpoint run_calls (cs : list call) : M (list FilterID) :=
  match cs with
  | [] => ret []
  | CallAdd m0 :: rest =>
      '(fid, _) <- AddFilter m0 ;;
      fids <- run_calls rest ;;
      ret (fid :: fids)
  | CallRemove fid :: rest =>
      RemoveFilter fid ;;
      run_calls rest
  end.

Definition is_add (c : call) : bool :=
  match c with CallAdd _ => true | CallRemove _ => false end.

(** Number of [AddFilter] calls in a sequence. *)
Definition adds (cs : list call) : nat := List.length (List.filter is_add cs).

(** A caller that adds a filter and removes it again, [n] times over,
    starting when [k] identifiers have been handed out. *)
Definition churn (m0 : Matcher) (k n : nat) : list call :=
  flat_map (fun j => [CallAdd m0; CallRemove (Int64.wrap (Z.of_nat j))]) (seq k n).

(** The state of the registry after [k] identifiers have been handed out
    without the counter wrapping: the counter holds [k], the registered
    identifiers are distinct and below [k], and the channels in use are
    distinct and were all made before. *)
Definition registry_inv (k : Z) (s : state) : Prop :=
  nextFilterID (conv s) = Int64.wrap k /\
  Forall (fun f => (0 <= id f < k)%Z /\ (ch f < made s)%nat) (filters (conv s)) /\
  NoDup (ids s) /\
  NoDup (In (conv s) :: Out (conv s) :: map ch (filters (conv s))) /\
  (In (conv s) < made s)%nat /\ (Out (conv s) < made s)%nat.

(** ** Reading traces *)

(** The values sent on channel [c], in order. *)
Fixpoint sent_on (c : chan) (t : list event) : list value :=
  match t with
  | [] => []
  | EvChanSend c' v :: rest =>
      if Nat.eqb c' c then v :: sent_on c rest else sent_on c rest
  | _ :: rest => sent_on c rest
  end.

(** The values handed to [stream.Send], in order. *)
Fixpoint stream_sends (t : list event) : list value :=
  match t with
  | [] => []
  | EvSend v :: rest => v :: stream_sends rest
  | _ :: rest => stream_sends rest
  end.

(** A transport failure put on a channel. *)
Definition sends_failure (e : event) : bool :=
  match e with
  | EvChanSend _ (VErr _) => true
  | _ => false
  end.

Definition ends_stream (e : event) : bool :=
  match e with EvSendEnd _ => true | _ => false end.

Definition closes_chan (e : event) : bool :=
  match e with EvChanClose _ => true | _ => false end.

(** An event of the loop of the receiver before it ends: no failure is
    handed on, the stream is not ended and no channel is closed. *)
Definition in_service (e : event) : Prop :=
  sends_failure e = false /\ ends_stream e = false /\ closes_chan e = false.

(** The table of the spec: tag name to stanza variant. *)
Definition tag_table : list (string * gotype) :=
  [("error", TError); ("iq", TIQ); ("message", TMessage); ("presence", TPresence)]%string.

Fixpoint lookup_tag (name : string) (tbl : list (string * gotype)) : option gotype :=
  match tbl with
  | [] => None
  | (k, t) :: rest => if (k =? name)%string then Some t else lookup_tag name rest
  end.

Definition tag_type (name : string) : gotype :=
  match lookup_tag name tag_table with
  | Some t => t
  | None => TNil
  end.

(** The zero struct of a stanza type behind a pointer; nil for the
    rest. *)
Definition zero_of (t : gotype) : value :=
  match t with
  | TError => VError zeroError
  | TIQ => VIQ zeroIQ
  | TMessage => VMessage zeroMessage
  | TPresence => VPresence zeroPresence
  | TNil | TGoError => VNil
  end.

(** What [stream.Decode] makes of the element [start] when it is given
    the zero value of the variant the table selects for its tag. *)
Definition decoded (start : xml.StartElement) : value :=
  fst (Decode stream (zero_of (tag_type (xml.Local (xml.StartName start)))) start).

Definition decode_error (start : xml.StartElement) : option error :=
  snd (Decode stream (zero_of (tag_type (xml.Local (xml.StartName start)))) start).

(** The spec's reading of the kind of a Query: a result. *)
Definition is_query_result (v : value) : bool :=
  match v with
  | VIQ iq => (Type_ iq =? "result")%string
  | _ => false
  end.

(** ** More readings of registries and traces *)

(** The first entry of the list with identifier [fid], and the list
    without that entry. *)
Fixpoint first_with (fid : FilterID) (fs : list filter) : option filter :=
  match fs with
  | [] => None
  | f :: rest => if (id f =? fid)%Z then Some f else first_with fid rest
  end.

Fixpoint remove_first (fid : FilterID) (fs : list filter) : list filter :=
  match fs with
  | [] => []
  | f :: rest => if (id f =? fid)%Z then rest else f :: remove_first fid rest
  end.

(** The channels closed, in order. *)
Fixpoint closed_chans (t : list event) : list chan :=
  match t with
  | [] => []
  | EvChanClose c :: rest => c :: closed_chans rest
  | _ :: rest => closed_chans rest
  end.

(** A call on the stream. *)
Definition on_stream (e : event) : bool :=
  match e with
  | EvNext _ | EvDecode _ _ | EvSend _ | EvSendEnd _ => true
  | _ => false
  end.

(** An event that, if it is a send, sends [v] on one of the channels
    [cs]. *)
Definition sends_to (cs : list chan) (v : value) (e : event) : Prop :=
  match e with
  | EvChanSend c v' => List.In c cs /\ v' = v
  | _ => False
  end.

(** An event that is not a send on a channel outside [cs]. *)
Definition sends_within (cs : list chan) (e : event) : Prop :=
  match e with
  | EvChanSend c _ => List.In c cs
  | _ => True
  end.

(** The channels the receiver may send on: [In] and those of the
    registered filters. *)
Definition open_chans (s : state) : list chan :=
  In (conv s) :: map ch (filters (conv s)).

(** ** Runs in which an operation panics *)

(** How the body of a function ends: it returns, or an operation
    panics and the function is left at once. *)
Inductive exit (A : Type) : Type :=
| Returned (a : A)
| Panicked.

Definition P (A : Type) : Type := state -> exit A * list event * state.

Definition retP {A} (a : A) : P A := fun s => (Returned a, [], s).

(** After a panic nothing of what follows in the body runs. *)
Definition bindP {A B} (c : P A) (k : A -> P B) : P B :=
  fun s =>
    let '(r, t1, s1) := c s in
    match r with
    | Returned a => let '(b, t2, s2) := k a s1 in (b, t1 ++ t2, s2)
    | Panicked _ => (Panicked B, t1, s1)
    end.

Notation "x <- c ;;; k" := (bindP c (fun x => k))
  (at level 61, c at next level, right associativity).
Notation "c ;;; k" := (bindP c (fun _ => k))
  (at level 61, right associativity).
Notation "' p <- c ;;; k" := (bindP c (fun x => let 'p := x in k))
  (at level 61, p pattern, c at next level, right associativity).

(** A step that cannot panic. *)
Definition lift {A} (c : M A) : P A :=
  fun s => let '(a, t, s') := c s in (Returned a, t, s').

(** [defer d] at the head of [body]: [d] runs when [body] is left,
    whether it returns or panics, in the state it was left in; the
    results of [d] are dropped and the way [body] ended stands. *)
Definition deferP {A B} (d : M B) (body : P A) : P A :=
  fun s =>
    let '(r, t1, s1) := body s in
    let '(_, t2, s2) := d s1 in
    (r, t1 ++ t2, s2).

(** The operations that panic in the run under study, by the event
    they would be recorded as: a send on a channel that another
    goroutine has closed, a call of the stream that panics, and so
    on. *)
Variable faulty : event -> bool.

(** The operation recorded as [e] and yielding [a]: it panics, and is
    not recorded, when it is faulty. *)
Definition attempt {A} (e : event) (a : A) : P A :=
  fun s => if faulty e then (Panicked A, [], s) else (Returned a, [e], s).

Definition chan_sendP (c : chan) (v : value) : P unit := attempt (EvChanSend c v) tt.
Definition chan_recvP (c : chan) (v : value) : P value := attempt (EvChanRecv c v) v.
Definition logP (msg : logmsg) : P unit := attempt (EvLog msg) tt.
Definition stream_nextP (r : xml.StartElement + error) : P unit := attempt (EvNext r) tt.

Definition stream_decodeP (v : value) (start : xml.StartElement)
  : P (value * option error) :=
  attempt (EvDecode v start) (Decode stream v start).

(** [SendRecv], where [received x] is what the receive on the channel
    of the filter yields: the other goroutines decide it with the
    conversation [x] before them as it is while the call waits. *)
Definition SendRecv (iq : IQ) (received : XMPP -> value)
  : P (option IQ * option error) :=
  '(fid, c) <- lift (AddFilter (IQResult (ID iq))) ;;;
  deferP (RemoveFilter fid) (
    x <- lift this ;;;
    chan_sendP (Out x) (VIQ iq) ;;;
    x <- lift this ;;;
    stanza <- chan_recvP c (received x) ;;;
    match stanza with
    | VIQ reply => retP (Some reply, None)
    | _ => retP (None, Some (ExpectedIQ (dyn_type stanza)))
    end).

(** What the two return paths of [SendRecv] make of the value
    received. *)
Definition reply_or_mismatch (stanza : value) : option IQ * option error :=
  match stanza with
  | VIQ reply => (Some reply, None)
  | _ => (None, Some (ExpectedIQ (dyn_type stanza)))
  end.

(** What a waiting call receives on channel [c] from the receiver: the
    first value that the receiver, dispatching [arrivals] in turn on the
    conversation [x], sends on [c]; nil, as from a channel closed in the
    end, when it sends none. *)
Definition receiver_feeds (c : chan) (arrivals : list value) (x : XMPP) : value :=
  hd VNil (flat_map (fun v => sent_on c (trace (dispatch v (mkState 0 x)))) arrivals).

(** The receiver, operation by operation as above, with each operation
    liable to panic. *)
Definition new_stanzaP (start : xml.StartElement) : P value :=
  let name := xml.Local (xml.StartName start) in
  if (name =? "error")%string then retP (VError zeroError)
  else if (name =? "iq")%string then retP (VIQ zeroIQ)
  else if (name =? "message")%string then retP (VMessage zeroMessage)
  else if (name =? "presence")%string then retP (VPresence zeroPresence)
  else logP (LogUnexpected start) ;;; retP VNil.

Fixpoint deliverP (fs : list filter) (v : value) (filtered : bool) : P bool :=
  match fs with
  | [] => retP filtered
  | f :: rest =>
      if Match (m f) v
      then chan_sendP (ch f) v ;;; deliverP rest v true
      else deliverP rest v filtered
  end.

Definition dispatchP (v : value) : P unit :=
  x <- lift this ;;;
  filtered <- deliverP (filters x) v false ;;;
  if negb filtered then chan_sendP (In x) v else retP tt.

Definition receiveP (start : xml.StartElement) : P unit :=
  v <- new_stanzaP start ;;;
  '(v, err) <- stream_decodeP v start ;;;
  match err with
  | Some e => logP (LogDecodeFailed e)
  | None => retP tt
  end ;;;
  dispatchP v.

Fixpoint receiver_loopP (incoming : list xml.StartElement) (err : error)
  : P unit :=
  match incoming with
  | [] =>
      stream_nextP (inr err) ;;;
      x <- lift this ;;;
      chan_sendP (In x) (VErr err)
  | start :: rest =>
      stream_nextP (inl start) ;;;
      receiveP start ;;;
      receiver_loopP rest err
  end.

Definition receiverP (incoming : list xml.StartElement) (err : error) : P unit :=
  deferP (log LogCloseReceiver ;;
          Close ;;
          x <- this ;;
          chan_close (In x))
         (receiver_loopP incoming err).

(** The run [rp], which may panic, against the run [rm] of the same
    steps when every operation completes, both from [s] and neither
    changing the state: [rp] is all of [rm], or it is [rm] broken off
    before the first faulty operation. *)
Definition broken_off {A} (s : state) (rm : A * list event * state)
    (rp : exit A * list event * state) : Prop :=
  final rm = s /\ final rp = s /\
  ((result rp = Returned (result rm) /\ trace rp = trace rm) \/
   (result rp = Panicked A /\
    exists e rest, trace rm = trace rp ++ e :: rest /\ faulty e = true)).

End Conversation.

Arguments VNil {Error Message Presence}.
Arguments VError {Error Message Presence} e.
Arguments VIQ {Error Message Presence} iq.
Arguments VMessage {Error Message Presence} msg.
Arguments VPresence {Error Message Presence} p.
Arguments VErr {Error Message Presence} e.
Arguments newXMPP {Error Message Presence} n.
Arguments IQResult {Error Message Presence} id0.
Arguments RemoveFilter {Error Message Presence} fid.
Arguments CallRemove {Error Message Presence} fid.
Arguments EvLog {Error Message Presence} msg.
Arguments EvChanClose {Error Message Presence} c.
Arguments EvNext {Error Message Presence} r.
Arguments EvSendEnd {Error Message Presence} e.
Arguments Close {Error Message Presence}.
Arguments mkState {Error Message Presence} made conv.
Arguments mkXMPP {Error Message Presence} In Out nextFilterID filters.
Arguments Panicked {A}.

End xmpp.

Import xmpp.

(** ** Sample data *)

(** A stream of stanzas without payload whose [Decode] reads the [id]
    and [type] attributes of an <iq/> and leaves every other target as
    it is. *)
Module Sample.

Fixpoint attr (name : string) (l : list xml.Attr) : string :=
  match l with
  | [] => EmptyString
  | a :: rest =>
      if (xml.Local (xml.AttrName a) =? name)%string then xml.Value a
      else attr name rest
  end.

Definition decode (v : value unit unit unit) (start : xml.StartElement)
  : value unit unit unit * option error :=
  match v with
  | VIQ _ =>
      (VIQ (mkIQ (attr "id" (xml.StartAttr start)) (attr "type" (xml.StartAttr start))),
       None)
  | VNil => (VNil, Some (StreamError "non-pointer passed to Unmarshal"))
  | _ => (v, None)
  end.

Definition stream : Stream unit unit unit :=
  mkStream decode
    (fun v start =>
       match v as v0 return dyn_type (fst (decode v0 start)) = dyn_type v0 with
       | VNil | VError _ | VIQ _ | VMessage _ | VPresence _ | VErr _ => eq_refl
       end).

Definition elem (name : string) (attrs : list (string * string)) : xml.StartElement :=
  xml.mkStart (xml.mkName "jabber:client" name)
    (map (fun kv => xml.mkAttr (xml.mkName EmptyString (fst kv)) (snd kv)) attrs).

Definition start : state unit unit unit := newXMPP 0.

Definition any : Matcher unit unit unit := fun _ => true.

(** A request and an error reply to it. *)
Definition request : IQ := mkIQ "42" "get".
Definition error_reply : value unit unit unit := VIQ (mkIQ "42" "error").

(** The conversation after [AddFilter] has been called twice: the
    filter 1 for the replies to [request] is ahead of the filter 0 that
    accepts everything. *)
Definition two_filters : state unit unit unit :=
  final (run_calls [CallAdd any; CallAdd (IQResult "42")] start).

(** 2^63 rounds of adding a filter and removing it, and one more
    [AddFilter]. *)
Definition limit : nat := Z.to_nat 9223372036854775808.
Definition long_history : list (call unit unit unit) :=
  churn any 0 limit ++ [CallAdd any].

Definition short_history : list (call unit unit unit) :=
  [CallAdd any; CallAdd (IQResult "42"); CallRemove 0%Z; CallAdd any;
   CallRemove 7%Z].

(** The elements of the scenario of the spec, and an element that is
    not a stanza. *)
Definition feed : list xml.StartElement :=
  [elem "message" []; elem "iq" [("id", "1"); ("type", "result")];
   elem "presence" []]%string.

Definition features : xml.StartElement := elem "features" [].

Definition eof : error := StreamError "EOF".

(** A message, the reply to [request] and an element that is not a
    stanza. *)
Definition traffic : list xml.StartElement :=
  [elem "message" []; elem "iq" [("id", "42"); ("type", "result")];
   elem "features" []]%string.

Definition reply : value unit unit unit := VIQ (mkIQ "42" "result").

(** No operation panics; and the channel 3 has been closed by another
    goroutine, so that a send on it panics. *)
Definition no_fault : event unit unit unit -> bool := fun _ => false.

Definition chan3_closed (e : event unit unit unit) : bool :=
  match e with
  | EvChanSend c _ => Nat.eqb c 3
  | _ => false
  end.

(** What arrives while a call waits for the reply to [request]. *)
Definition arrivals : list (value unit unit unit) := [VMessage tt; reply].

End Sample.

(** * Properties *)

Module Int64Facts.
Import Int64.

Lemma wrap_small z : in_range z -> wrap z = z.
Proof.
  unfold in_range, wrap, min_int, max_int, modulus. intros H.
  rewrite Z.mod_small; lia.
Qed.

Lemma incr_wrap z : incr (wrap z) = wrap (z + 1).
Proof.
  unfold incr, wrap, min_int, modulus.
  replace ((z - -9223372036854775808) mod 18446744073709551616
           + -9223372036854775808 + 1 - -9223372036854775808)%Z
    with ((z - -9223372036854775808) mod 18446744073709551616 + 1)%Z by ring.
  replace (z + 1 - -9223372036854775808)%Z
    with ((z - -9223372036854775808) + 1)%Z by ring.
  rewrite Z.add_mod_idemp_l by lia. reflexivity.
Qed.

Lemma wrap_at_limit : wrap 9223372036854775808 = min_int.
Proof. reflexivity. Qed.

End Int64Facts.

Section Properties.

Variables Error Message Presence : Type.
Variable zeroError : Error.
Variable zeroMessage : Message.
Variable zeroPresence : Presence.
Variable stream : Stream Error Message Presence.

Local Abbreviation value := (value Error Message Presence).
Local Abbreviation state := (state Error Message Presence).
Local Abbreviation filter := (filter Error Message Presence).
Local Abbreviation Matcher := (Matcher Error Message Presence).
Local Abbreviation event := (event Error Message Presence).
Local Abbreviation call := (call Error Message Presence).
Local Abbreviation M := (M Error Message Presence).
Local Abbreviation XMPP := (XMPP Error Message Presence).
Local Abbreviation P := (P Error Message Presence).
Local Abbreviation receive := (receive zeroError zeroMessage zeroPresence stream).
Local Abbreviation receiver_loop := (receiver_loop zeroError zeroMessage zeroPresence stream).
Local Abbreviation receiver := (receiver zeroError zeroMessage zeroPresence stream).
Local Abbreviation new_stanza := (new_stanza zeroError zeroMessage zeroPresence).
Local Abbreviation zero_of := (zero_of zeroError zeroMessage zeroPresence).
Local Abbreviation decoded := (decoded zeroError zeroMessage zeroPresence stream).
Local Abbreviation decode_error := (decode_error zeroError zeroMessage zeroPresence stream).
Local Abbreviation new_stanzaP := (new_stanzaP zeroError zeroMessage zeroPresence).
Local Abbreviation receiveP := (receiveP zeroError zeroMessage zeroPresence stream).
Local Abbreviation receiver_loopP := (receiver_loopP zeroError zeroMessage zeroPresence stream).
Local Abbreviation receiverP := (receiverP zeroError zeroMessage zeroPresence stream).

(** ** Running a sequence of steps *)

Lemma bind_result A B (c : M A) (k : A -> M B) s :
  result (bind c k s) = result (k (result (c s)) (final (c s))).
Proof.
  unfold bind, result, final. destruct (c s) as [[a t1] s1]; simpl.
  destruct (k a s1) as [[b t2] s2]; reflexivity.
Qed.

Lemma bind_trace A B (c : M A) (k : A -> M B) s :
  trace (bind c k s) = trace (c s) ++ trace (k (result (c s)) (final (c s))).
Proof.
  unfold bind, result, final, trace. destruct (c s) as [[a t1] s1]; simpl.
  destruct (k a s1) as [[b t2] s2]; reflexivity.
Qed.

Lemma bind_final A B (c : M A) (k : A -> M B) s :
  final (bind c k s) = final (k (result (c s)) (final (c s))).
Proof.
  unfold bind, result, final. destruct (c s) as [[a t1] s1]; simpl.
  destruct (k a s1) as [[b t2] s2]; reflexivity.
Qed.

Lemma run_eta A (r : A * list event * state) :
  r = (result r, trace r, final r).
Proof. destruct r as [[a t] s]; reflexivity. Qed.

(** ** The correlation matcher *)

(** X14: what [IQResult] tests is the dynamic type and the identifier,
    and nothing else: it accepts a value exactly when the value is a
    Query whose identifier is the given one; nil, the other stanzas and
    transport failures are rejected. *)
Lemma IQResult_accepts (id0 : string) (v : value) :
  Match (IQResult id0) v = true <-> exists iq, v = VIQ iq /\ ID iq = id0.
Proof.
  unfold Match, IQResult, MatcherFunc. split.
  - destruct v as [ | e | iq | msg | p | e ]; try discriminate.
    destruct (String.eqb_spec (ID iq) id0) as [Heq | Hne]; simpl; try discriminate.
    intros _. now exists iq.
  - intros [iq [-> <-]]. now rewrite String.eqb_refl.
Qed.

(** C1, at the input where the code leaves the claim: [IQResult "1"]
    accepts an <iq id="1" type="get"/>, a Query that is not a result;
    the kind of the Query is never read. *)
Theorem IQResult_ignores_kind :
  is_query_result (@VIQ Error Message Presence (mkIQ "1" "get")) = false /\
  Match (@IQResult Error Message Presence "1") (VIQ (mkIQ "1" "get")) = true.
Proof. split; reflexivity. Qed.

(** ** The registry *)

Lemma AddFilter_run (m0 : Matcher) (s : state) :
  AddFilter m0 s =
  ((nextFilterID (conv s), made s), [],
   mkState (S (made s))
     (mkXMPP (In (conv s)) (Out (conv s))
        (Int64.incr (nextFilterID (conv s)))
        (mkFilter (nextFilterID (conv s)) m0 (made s) :: filters (conv s)))).
Proof. reflexivity. Qed.

Lemma find_filter_found (fid : FilterID) (fs : list filter) :
  forall i j f,
    find_filter fid fs i = Some (j, f) ->
    exists l1 l2,
      fs = l1 ++ f :: l2 /\ id f = fid /\
      ~ List.In fid (map (@id _ _ _) l1) /\ j = (i + List.length l1)%nat.
Proof.
  induction fs as [ | g rest IH ]; simpl; intros i j f H; [ discriminate | ].
  destruct (Z.eqb_spec (id g) fid) as [Heq | Hne]; simpl in H.
  - injection H as <- <-. exists [], rest. repeat split; auto.
  - destruct (IH _ _ _ H) as (l1 & l2 & -> & Hid & Hnot & ->).
    exists (g :: l1), l2. split; [ reflexivity | ]. split; [ exact Hid | ].
    split; [ | simpl; lia ].
    simpl. intros [E | E]; [ now apply Hne | now apply Hnot ].
Qed.

Lemma find_filter_first (fid : FilterID) (l1 l2 : list filter) (f : filter) :
  id f = fid -> ~ List.In fid (map (@id _ _ _) l1) ->
  forall i, find_filter fid (l1 ++ f :: l2) i = Some ((i + List.length l1)%nat, f).
Proof.
  intros Hid. induction l1 as [ | g l1 IH ]; simpl; intros Hnot i.
  - rewrite Hid, Z.eqb_refl. simpl. f_equal. f_equal. lia.
  - destruct (Z.eqb_spec (id g) fid) as [Heq | Hne]; simpl.
    + exfalso. apply Hnot. now left.
    + rewrite IH by (intros E; apply Hnot; now right). f_equal. f_equal. lia.
Qed.

Lemma find_filter_none (fid : FilterID) (fs : list filter) :
  forall i, find_filter fid fs i = None <-> ~ List.In fid (map (@id _ _ _) fs).
Proof.
  induction fs as [ | g rest IH ]; simpl; intros i.
  - split; auto.
  - destruct (Z.eqb_spec (id g) fid) as [Heq | Hne]; simpl.
    + split; [ discriminate | ]. intros H. exfalso. apply H. now left.
    + rewrite IH. split; intros H; [ intros [E | E]; auto | auto ].
Qed.

Lemma in_ids_split (fid : FilterID) (fs : list filter) :
  List.In fid (map (@id _ _ _) fs) ->
  exists l1 f l2,
    fs = l1 ++ f :: l2 /\ id f = fid /\ ~ List.In fid (map (@id _ _ _) l1).
Proof.
  intros Hin. destruct (find_filter fid fs 0) as [[j f] | ] eqn:E.
  - destruct (find_filter_found _ _ _ E) as (l1 & l2 & H1 & H2 & H3 & _).
    now exists l1, f, l2.
  - apply find_filter_none in E. contradiction.
Qed.

Lemma cut_at (l1 l2 : list filter) (f : filter) :
  firstn (List.length l1) (l1 ++ f :: l2)
  ++ skipn (S (List.length l1)) (l1 ++ f :: l2) = l1 ++ l2.
Proof.
  induction l1 as [ | g l1 IH ]; simpl; [ reflexivity | ].
  f_equal. exact IH.
Qed.

Lemma RemoveFilter_found (s : state) (l1 l2 : list filter) (f : filter) :
  filters (conv s) = l1 ++ f :: l2 ->
  ~ List.In (id f) (map (@id _ _ _) l1) ->
  RemoveFilter (id f) s =
  (None, [EvChanClose (ch f)],
   mkState (made s) (set_filters (l1 ++ l2) (conv s))).
Proof.
  intros Hfs Hnot. unfold RemoveFilter, bind, this. simpl.
  rewrite Hfs, (find_filter_first l1 l2 f eq_refl Hnot 0). simpl.
  unfold store. simpl. now rewrite cut_at.
Qed.

Lemma RemoveFilter_not_found (s : state) (fid : FilterID) :
  ~ List.In fid (ids s) ->
  RemoveFilter fid s = (Some (InvalidFilterID fid), [], s).
Proof.
  intros Hnot. unfold RemoveFilter, bind, this. simpl.
  apply (find_filter_none fid (filters (conv s)) 0) in Hnot. now rewrite Hnot.
Qed.


(** C4: [RemoveFilter fid] on a registry that holds [fid] closes the
    channel of the first (with distinct identifiers: the only) filter
    with that identifier, takes it out of the list and returns nil; on a
    registry that does not hold [fid] it returns the identifier as an
    error, performs no operation and leaves the state as it is.  With
    distinct identifiers, a second [RemoveFilter fid] after a successful
    one is therefore of the second kind: it closes nothing. *)
Theorem RemoveFilter_removes_or_reports (s : state) (fid : FilterID) :
  (List.In fid (ids s) ->
   exists l1 f l2,
     filters (conv s) = l1 ++ f :: l2 /\ id f = fid /\
     ~ List.In fid (map (@id _ _ _) l1) /\
     RemoveFilter fid s =
       (None, [EvChanClose (ch f)],
        mkState (made s) (set_filters (l1 ++ l2) (conv s))) /\
     (NoDup (ids s) ->
      let s' := final (RemoveFilter fid s) in
      ~ List.In fid (ids s') /\
      RemoveFilter fid s' = (Some (InvalidFilterID fid), [], s'))) /\
  (~ List.In fid (ids s) ->
   RemoveFilter fid s = (Some (InvalidFilterID fid), [], s)).
Proof.
  split; [ | apply RemoveFilter_not_found ].
  intros Hin. destruct (in_ids_split _ _ Hin) as (l1 & f & l2 & Hfs & Hid & Hnot).
  exists l1, f, l2. subst fid.
  pose proof (RemoveFilter_found s l1 l2 f Hfs Hnot) as Hrun.
  repeat (split; [ assumption || reflexivity | ]).
  intros Hnodup. rewrite Hrun. simpl.
  assert (Hgone : ~ List.In (id f)
                      (ids (mkState (made s) (set_filters (l1 ++ l2) (conv s))))).
  { unfold ids in *. simpl. rewrite Hfs, map_app in Hnodup. simpl in Hnodup.
    rewrite map_app. now apply NoDup_remove_2 in Hnodup. }
  split; [ exact Hgone | now apply RemoveFilter_not_found ].
Qed.

(** C10: a successful [RemoveFilter fid] takes exactly one entry out of
    the list; the entries before and after it stay as they are and in
    their order, the only operation performed is the close of the
    channel of the entry taken out, and the counter, the channels [In]
    and [Out] and the channel allocator are untouched. *)
Theorem RemoveFilter_frame (s : state) (fid : FilterID) :
  List.In fid (ids s) ->
  exists l1 f l2,
    filters (conv s) = l1 ++ f :: l2 /\ id f = fid /\
    result (RemoveFilter fid s) = None /\
    trace (RemoveFilter fid s) = [EvChanClose (ch f)] /\
    filters (conv (final (RemoveFilter fid s))) = l1 ++ l2 /\
    nextFilterID (conv (final (RemoveFilter fid s))) = nextFilterID (conv s) /\
    In (conv (final (RemoveFilter fid s))) = In (conv s) /\
    Out (conv (final (RemoveFilter fid s))) = Out (conv s) /\
    made (final (RemoveFilter fid s)) = made s.
Proof.
  intros Hin. destruct (in_ids_split _ _ Hin) as (l1 & f & l2 & Hfs & Hid & Hnot).
  exists l1, f, l2. subst fid.
  rewrite (RemoveFilter_found s l1 l2 f Hfs Hnot). simpl. now repeat split.
Qed.

(** The state after [RemoveFilter], whatever it returned: the same but
    for the list, which is the old one with at most one entry left
    out. *)
Lemma RemoveFilter_final (s : state) (fid : FilterID) :
  final (RemoveFilter fid s) = s \/
  exists l1 f l2,
    filters (conv s) = l1 ++ f :: l2 /\
    final (RemoveFilter fid s) = mkState (made s) (set_filters (l1 ++ l2) (conv s)).
Proof.
  destruct (in_dec Z.eq_dec fid (ids s)) as [Hin | Hnot].
  - right. destruct (in_ids_split _ _ Hin) as (l1 & f & l2 & Hfs & Hid & Hn).
    exists l1, f, l2. subst fid. now rewrite (RemoveFilter_found s l1 l2 f Hfs Hn).
  - left. now rewrite RemoveFilter_not_found.
Qed.


(** ** Histories of the registry *)

Lemma registry_inv_new (n : nat) : registry_inv 0 (@newXMPP Error Message Presence n).
Proof.
  unfold registry_inv, ids; simpl. repeat split; auto using NoDup_nil; try lia.
  repeat constructor; simpl; intuition lia.
Qed.

Lemma registry_inv_add (k : Z) (s : state) (m0 : Matcher) :
  (0 <= k < 9223372036854775808)%Z ->
  registry_inv k s ->
  fst (result (AddFilter m0 s)) = k /\
  registry_inv (k + 1) (final (AddFilter m0 s)).
Proof.
  intros Hk (Hnext & Hall & Hids & Hchs & Hin & Hout).
  assert (Hwrap : Int64.wrap k = k).
  { apply Int64Facts.wrap_small. unfold Int64.in_range, Int64.min_int, Int64.max_int. lia. }
  rewrite AddFilter_run. unfold registry_inv, ids in *. simpl.
  rewrite Hnext. split; [ exact Hwrap | ].
  assert (Hlow : forall c, List.In c (map (@ch _ _ _) (filters (conv s))) ->
                           (c < made s)%nat).
  { intros c Hc. apply in_map_iff in Hc. destruct Hc as (f & <- & Hf).
    rewrite Forall_forall in Hall. now apply Hall. }
  repeat split.
  - apply Int64Facts.incr_wrap.
  - constructor; simpl; [ rewrite Hwrap; lia | ].
    eapply Forall_impl; [ | exact Hall ]. simpl. intros f [H1 H2]. lia.
  - constructor; [ | exact Hids ]. rewrite Hwrap.
    intros Hk'. apply in_map_iff in Hk'. destruct Hk' as (f & Hf & Hfin).
    rewrite Forall_forall in Hall. apply Hall in Hfin. lia.
  - inversion Hchs as [ | a l Ha Hrest ]; subst.
    inversion Hrest as [ | a l Hb Hrest' ]; subst.
    constructor.
    + simpl in *. intros [E | [E | E]]; [ tauto | lia | tauto ].
    + constructor.
      * simpl in *. intros [E | E]; [ lia | tauto ].
      * constructor; [ | exact Hrest' ].
        intros Hc. apply Hlow in Hc. lia.
  - lia.
  - lia.
Qed.

Lemma registry_inv_remove (k : Z) (s : state) (fid : FilterID) :
  registry_inv k s -> registry_inv k (final (RemoveFilter fid s)).
Proof.
  intros Hinv. destruct (RemoveFilter_final s fid) as [-> | (l1 & f & l2 & Hfs & ->)];
    [ exact Hinv | ].
  destruct Hinv as (Hnext & Hall & Hids & Hchs & Hin & Hout).
  unfold registry_inv, ids in *. simpl. rewrite Hfs in *.
  repeat split; try assumption.
  - apply Forall_app in Hall. destruct Hall as [H1 H2].
    apply Forall_app. split; [ exact H1 | now inversion H2 ].
  - rewrite map_app in *. simpl in Hids. now apply NoDup_remove_1 in Hids.
  - rewrite map_app in *. simpl in Hchs.
    change (NoDup (([In (conv s); Out (conv s)] ++ map (@ch _ _ _) l1)
                   ++ map (@ch _ _ _) l2)).
    change (NoDup (([In (conv s); Out (conv s)] ++ map (@ch _ _ _) l1)
                   ++ ch f :: map (@ch _ _ _) l2)) in Hchs.
    now apply NoDup_remove_1 in Hchs.
Qed.

Lemma run_calls_sorted (cs : list call) :
  forall (k : Z) (s : state),
    (0 <= k)%Z -> (k + Z.of_nat (adds cs) <= 9223372036854775808)%Z ->
    registry_inv k s ->
    StronglySorted Z.lt (result (run_calls cs s)) /\
    Forall (fun i => (k <= i)%Z) (result (run_calls cs s)) /\
    registry_inv (k + Z.of_nat (adds cs)) (final (run_calls cs s)).
Proof.
  induction cs as [ | [m0 | fid] rest IH ]; intros k s Hk Hbound Hinv.
  - unfold adds; simpl. rewrite Z.add_0_r.
    split; [ apply SSorted_nil | split; [ apply Forall_nil | exact Hinv ] ].
  - assert (Hadds : adds (CallAdd m0 :: rest) = S (adds rest)) by reflexivity.
    rewrite Hadds in *. rewrite Nat2Z.inj_succ in *.
    destruct (@registry_inv_add k s m0 ltac:(lia) Hinv) as [Hfid Hinv'].
    destruct (IH (k + 1)%Z (final (AddFilter m0 s)) ltac:(lia) ltac:(lia) Hinv')
      as (Hsorted & Hge & Hfinal).
    change (run_calls (CallAdd m0 :: rest))
      with (bind (AddFilter m0)
              (fun x => let '(fid, _) := x in
                        bind (run_calls rest) (fun fids => ret (fid :: fids)))).
    rewrite bind_result, bind_final.
    destruct (result (AddFilter m0 s)) as [fid c] eqn:Hres. simpl in Hfid. subst fid.
    rewrite bind_result, bind_final. simpl.
    replace (k + Z.succ (Z.of_nat (adds rest)))%Z
      with (k + 1 + Z.of_nat (adds rest))%Z by lia.
    split; [ | split; [ | exact Hfinal ] ].
    + constructor; [ exact Hsorted | ].
      eapply Forall_impl; [ | exact Hge ]. simpl. intros; lia.
    + constructor; [ lia | ].
      eapply Forall_impl; [ | exact Hge ]. simpl. intros; lia.
  - assert (Hadds : adds (CallRemove fid :: rest) = adds rest) by reflexivity.
    rewrite Hadds in *.
    change (run_calls (CallRemove fid :: rest))
      with (bind (RemoveFilter fid) (fun _ => run_calls rest)).
    rewrite bind_result, bind_final.
    apply IH; auto. now apply registry_inv_remove.
Qed.


Lemma StronglySorted_lt_NoDup (l : list Z) : StronglySorted Z.lt l -> NoDup l.
Proof.
  induction 1 as [ | a l Hs IH Hall ]; constructor; [ | exact IH ].
  intros Hin. rewrite Forall_forall in Hall. apply Hall in Hin. lia.
Qed.

(** C3, as amended: [AddFilter] hands out the value of the counter and
    the next channel of the allocator, advances both, and puts the new
    filter at the head of the list, ahead of the entries that were
    there.  Over any sequence of [AddFilter] and [RemoveFilter] calls
    on a new conversation that holds at most 2^63 [AddFilter] calls,
    the identifiers handed out are strictly increasing and so distinct,
    the list never holds one identifier twice, the channels in use are
    distinct, and the channel the next [AddFilter] would make is not in
    use. *)
Theorem AddFilter_fresh_ids :
  (forall (m0 : Matcher) (s : state),
     result (AddFilter m0 s) = (nextFilterID (conv s), made s) /\
     trace (AddFilter m0 s) = [] /\
     filters (conv (final (AddFilter m0 s))) =
       mkFilter (nextFilterID (conv s)) m0 (made s) :: filters (conv s) /\
     nextFilterID (conv (final (AddFilter m0 s))) =
       Int64.incr (nextFilterID (conv s)) /\
     made (final (AddFilter m0 s)) = S (made s)) /\
  (forall (n : nat) (cs : list call),
     (Z.of_nat (adds cs) <= 9223372036854775808)%Z ->
     let r := run_calls cs (newXMPP n) in
     let in_use := In (conv (final r)) :: Out (conv (final r))
                   :: map (@ch _ _ _) (filters (conv (final r))) in
     StronglySorted Z.lt (result r) /\
     NoDup (result r) /\
     NoDup (ids (final r)) /\
     NoDup in_use /\
     ~ List.In (made (final r)) in_use).
Proof.
  split.
  - intros m0 s. rewrite AddFilter_run. simpl. now repeat split.
  - intros n cs Hbound r in_use.
    destruct (@run_calls_sorted cs 0%Z (newXMPP n) ltac:(lia) ltac:(lia)
                (registry_inv_new n)) as (Hsorted & _ & Hinv).
    destruct Hinv as (_ & Hall & Hids & Hchs & Hin & Hout).
    split; [ exact Hsorted | ].
    split; [ now apply StronglySorted_lt_NoDup | ].
    split; [ exact Hids | ]. split; [ exact Hchs | ].
    subst in_use. fold r in Hall, Hin, Hout. simpl.
    intros [E | [E | E]]; [ lia | lia | ].
    apply in_map_iff in E. destruct E as (f & Hf & Hfin).
    rewrite Forall_forall in Hall. apply Hall in Hfin. lia.
Qed.

Lemma run_calls_app (cs1 cs2 : list call) :
  forall s : state,
    result (run_calls (cs1 ++ cs2) s) =
      result (run_calls cs1 s) ++ result (run_calls cs2 (final (run_calls cs1 s))) /\
    final (run_calls (cs1 ++ cs2) s) =
      final (run_calls cs2 (final (run_calls cs1 s))).
Proof.
  induction cs1 as [ | [m0 | fid] rest IH ]; intros s.
  - split; reflexivity.
  - change (run_calls ((CallAdd m0 :: rest) ++ cs2))
      with (bind (AddFilter m0)
              (fun x => let '(fid, _) := x in
                        bind (run_calls (rest ++ cs2)) (fun fids => ret (fid :: fids)))).
    change (run_calls (CallAdd m0 :: rest))
      with (bind (AddFilter m0)
              (fun x => let '(fid, _) := x in
                        bind (run_calls rest) (fun fids => ret (fid :: fids)))).
    rewrite !bind_result, !bind_final.
    set (s1 := final (AddFilter m0 s)).
    destruct (result (AddFilter m0 s)) as [fid c].
    rewrite !bind_result, !bind_final.
    destruct (IH s1) as [-> ->]. split; reflexivity.
  - change (run_calls ((CallRemove fid :: rest) ++ cs2))
      with (bind (RemoveFilter fid) (fun _ => run_calls (rest ++ cs2))).
    change (run_calls (CallRemove fid :: rest))
      with (bind (RemoveFilter fid) (fun _ => run_calls rest)).
    rewrite !bind_result, !bind_final. apply IH.
Qed.

(** Adding a filter and removing it again [n] times leaves the list as
    it was and the counter [n] steps further, modulo 2^64. *)
Lemma churn_run (m0 : Matcher) (n : nat) :
  forall (k : nat) (s : state),
    nextFilterID (conv s) = Int64.wrap (Z.of_nat k) ->
    result (run_calls (churn m0 k n) s) =
      map (fun j => Int64.wrap (Z.of_nat j)) (seq k n) /\
    nextFilterID (conv (final (run_calls (churn m0 k n) s))) =
      Int64.wrap (Z.of_nat (k + n)) /\
    filters (conv (final (run_calls (churn m0 k n) s))) = filters (conv s).
Proof.
  induction n as [ | n IH ]; intros k s Hnext.
  - simpl. rewrite Nat.add_0_r. now repeat split.
  - change (churn m0 k (S n))
      with ([CallAdd m0; CallRemove (Int64.wrap (Z.of_nat k))] ++ churn m0 (S k) n).
    destruct (run_calls_app [CallAdd m0; CallRemove (Int64.wrap (Z.of_nat k))]
                (churn m0 (S k) n) s) as [-> ->].
    set (s1 := final (run_calls [CallAdd m0; CallRemove (Int64.wrap (Z.of_nat k))] s)).
    assert (Hs1 : result (run_calls [CallAdd m0; CallRemove (Int64.wrap (Z.of_nat k))] s)
                  = [Int64.wrap (Z.of_nat k)] /\
                  nextFilterID (conv s1) = Int64.wrap (Z.of_nat k + 1) /\
                  filters (conv s1) = filters (conv s)).
    { subst s1. unfold run_calls, bind, ret. rewrite AddFilter_run.
      unfold RemoveFilter, bind, this, store, chan_close, emit, ret. simpl.
      rewrite Hnext, Z.eqb_refl. simpl.
      rewrite <- Int64Facts.incr_wrap. now repeat split. }
    destruct Hs1 as (-> & Hn1 & Hf1).
    replace (Z.of_nat k + 1)%Z with (Z.of_nat (S k)) in Hn1 by lia.
    destruct (IH (S k) s1 Hn1) as (-> & -> & ->).
    rewrite Hf1. replace (S k + n)%nat with (k + S n)%nat by lia.
    now repeat split.
Qed.

Lemma StronglySorted_across (l1 l2 : list Z) (a b : Z) :
  StronglySorted Z.lt (l1 ++ l2) -> List.In a l1 -> List.In b l2 -> (a < b)%Z.
Proof.
  induction l1 as [ | x l1 IH ]; simpl; intros Hs Ha Hb; [ contradiction | ].
  inversion Hs as [ | y l Hrest Hall ]; subst.
  destruct Ha as [-> | Ha]; [ | now apply IH ].
  rewrite Forall_forall in Hall. apply Hall, in_or_app. now right.
Qed.


(** ** The request/response helper *)

Lemma RemoveFilter_head (fid : FilterID) (m0 : Matcher) (c : chan) (n : nat)
    (i o : chan) (k : FilterID) (fs : list filter) :
  RemoveFilter fid (mkState n (mkXMPP i o k (mkFilter fid m0 c :: fs))) =
  (None, [EvChanClose c], mkState n (mkXMPP i o k fs)).
Proof.
  unfold RemoveFilter, bind, this, store, chan_close, emit, ret. simpl.
  rewrite Z.eqb_refl. reflexivity.
Qed.

(** The three ways a call of [SendRecv] ends. *)
Lemma SendRecv_run (faulty : event -> bool) (iq : IQ) (received : XMPP -> value)
    (s : state) :
  let fid := nextFilterID (conv s) in
  let c := made s in
  let waiting :=
    mkXMPP (In (conv s)) (Out (conv s)) (Int64.incr fid)
      (mkFilter fid (IQResult (ID iq)) c :: filters (conv s)) in
  let send := EvChanSend (Out (conv s)) (VIQ iq) in
  let recv := EvChanRecv c (received waiting) in
  let restored :=
    mkState (S (made s))
      (mkXMPP (In (conv s)) (Out (conv s)) (Int64.incr fid) (filters (conv s))) in
  SendRecv faulty iq received s =
  if faulty send then (Panicked, [EvChanClose c], restored)
  else if faulty recv then (Panicked, [send; EvChanClose c], restored)
  else (Returned (reply_or_mismatch (received waiting)),
        [send; recv; EvChanClose c], restored).
Proof.
  intros fid c waiting send recv restored.
  unfold SendRecv, bindP, lift, deferP. rewrite AddFilter_run.
  unfold chan_sendP, chan_recvP, attempt, this, retP.
  cbn [conv Out made]. fold fid c. fold waiting. fold send.
  destruct (faulty send).
  - unfold waiting, fid, c. rewrite RemoveFilter_head. reflexivity.
  - cbn [conv]. fold waiting. fold recv. destruct (faulty recv).
    + unfold waiting, fid, c. rewrite RemoveFilter_head. reflexivity.
    + unfold reply_or_mismatch.
      destruct (received waiting); unfold waiting, fid, c;
        rewrite RemoveFilter_head; reflexivity.
Qed.

(** C2, as amended: [SendRecv iq] puts a filter with the matcher
    [IQResult iq.ID] at the head of the list and sends [iq] on [Out];
    what it then receives on the channel of that filter is what the
    other goroutines deliver with that filter registered.  However the
    call ends (the send panics, the receive panics, or it returns) the
    deferred [RemoveFilter] runs last: it closes the channel of the
    filter, the only close of the call, and the list is again as it
    was before the call.  When the call returns, it returns the value
    received with a nil error if that value is a Query, of whatever
    kind, and the "Expected IQ" error and no Query if it is anything
    else, nil included. *)
Theorem SendRecv_round_trip (faulty : event -> bool) (iq : IQ)
    (received : XMPP -> value) (s : state) :
  let fid := nextFilterID (conv s) in
  let c := made s in
  let waiting :=
    mkXMPP (In (conv s)) (Out (conv s)) (Int64.incr fid)
      (mkFilter fid (IQResult (ID iq)) c :: filters (conv s)) in
  let delivered := received waiting in
  let send := EvChanSend (Out (conv s)) (VIQ iq) in
  let recv := EvChanRecv c delivered in
  let r := SendRecv faulty iq received s in
  filters (conv (final r)) = filters (conv s) /\
  nextFilterID (conv (final r)) = Int64.incr fid /\
  (exists before, trace r = before ++ [EvChanClose c] /\ closed_chans before = []) /\
  (result r, trace r) =
    (if faulty send then (Panicked, [EvChanClose c])
     else if faulty recv then (Panicked, [send; EvChanClose c])
     else (Returned
             match delivered with
             | VIQ reply => (Some reply, None)
             | _ => (None, Some (ExpectedIQ (dyn_type delivered)))
             end,
           [send; recv; EvChanClose c])).
Proof.
  intros fid c waiting delivered send recv r.
  pose proof (SendRecv_run faulty iq received s) as Hrun.
  cbv zeta in Hrun. fold fid c in Hrun. fold waiting in Hrun.
  fold delivered in Hrun. fold send recv in Hrun. fold r in Hrun.
  change (match delivered with
          | VIQ reply => (Some reply, None)
          | _ => (None, Some (ExpectedIQ (dyn_type delivered)))
          end) with (reply_or_mismatch delivered).
  rewrite Hrun.
  destruct (faulty send); [ | destruct (faulty recv) ];
    (split; [ reflexivity | split; [ reflexivity | split; [ | reflexivity ] ] ]).
  - exists []. now split.
  - exists [send]. now split.
  - exists [send; recv]. now split.
Qed.

(** ** The sender *)

Lemma sender_loop_run (outgoing : list value) (s : state) :
  sender_loop outgoing s =
  (tt, flat_map (fun v => [EvChanRecv (Out (conv s)) v; EvSend v]) outgoing, s).
Proof.
  induction outgoing as [ | v rest IH ]; [ reflexivity | ].
  simpl. unfold bind, this, chan_recv, stream_send, emit in *. simpl.
  now rewrite IH.
Qed.

Lemma stream_sends_forwarded (c : chan) (l : list value) (t : list event) :
  stream_sends (flat_map (fun v => [EvChanRecv c v; EvSend v]) l ++ t) =
  l ++ stream_sends t.
Proof. induction l as [ | v l IH ]; simpl; [ reflexivity | now rewrite IH ]. Qed.

(** C8: the sender hands each value it receives from [Out] to
    [stream.Send] before it receives the next one, as it received it;
    when the channel is closed it logs and calls [Close], which logs and
    sends the end of the element stream:stream.  It leaves the
    conversation as it is. *)
Theorem sender_forwards (outgoing : list value) (s : state) :
  trace (sender outgoing s) =
    flat_map (fun v => [EvChanRecv (Out (conv s)) v; EvSend v]) outgoing
    ++ [EvLog LogCloseStream; EvLog LogClose;
        EvSendEnd (xml.mkEnd (xml.mkName "stream" "stream"))] /\
  stream_sends (trace (sender outgoing s)) = outgoing /\
  final (sender outgoing s) = s.
Proof.
  assert (Hrun : sender outgoing s =
    (tt, flat_map (fun v => [EvChanRecv (Out (conv s)) v; EvSend v]) outgoing
         ++ [EvLog LogCloseStream; EvLog LogClose; EvSendEnd stream_end], s)).
  { unfold sender, bind. rewrite sender_loop_run. reflexivity. }
  rewrite Hrun. unfold trace, final. cbn [fst snd].
  split; [ reflexivity | split; [ | reflexivity ] ].
  rewrite stream_sends_forwarded. simpl. apply app_nil_r.
Qed.

(** ** The receiver *)

Lemma deliver_run (fs : list filter) (v : value) :
  forall (filtered : bool) (s : state),
    deliver fs v filtered s =
    (filtered || existsb (fun f => Match (m f) v) fs,
     map (fun f => EvChanSend (ch f) v) (List.filter (fun f => Match (m f) v) fs),
     s).
Proof.
  induction fs as [ | f rest IH ]; intros filtered s; simpl.
  - now rewrite orb_false_r.
  - destruct (Match (m f) v); simpl.
    + unfold bind, chan_send, emit. rewrite IH. simpl. now rewrite orb_true_r.
    + apply IH.
Qed.

Lemma dispatch_run (v : value) (s : state) :
  dispatch v s =
  (tt,
   map (fun f => EvChanSend (ch f) v)
     (List.filter (fun f => Match (m f) v) (filters (conv s)))
   ++ (if existsb (fun f => Match (m f) v) (filters (conv s)) then []
       else [EvChanSend (In (conv s)) v]),
   s).
Proof.
  unfold dispatch, bind, this. rewrite deliver_run. simpl.
  destruct (existsb _ _); simpl; [ | reflexivity ].
  now rewrite app_nil_r.
Qed.

(** C5: the receiver walks the list from its head, where [AddFilter]
    puts the newest filter, and sends the stanza on the channel of each
    filter whose matcher accepts it, in list order; after the walk it
    sends the stanza on [In] exactly when no matcher accepted it.  When
    [In] is not the channel of a filter, the stanza is sent on [In] if
    and only if every matcher in the list rejects it. *)
Theorem dispatch_routes (v : value) (s : state) :
  let accepts := fun f : filter => Match (m f) v in
  let deliveries := fun fs : list filter =>
    map (fun f => EvChanSend (ch f) v) (List.filter accepts fs) in
  trace (dispatch v s) =
    deliveries (filters (conv s))
    ++ (if existsb accepts (filters (conv s)) then []
        else [EvChanSend (In (conv s)) v]) /\
  final (dispatch v s) = s /\
  (forall m0 : Matcher,
     trace (dispatch v (final (AddFilter m0 s))) =
       (if Match m0 v then [EvChanSend (made s) v] else [])
       ++ deliveries (filters (conv s))
       ++ (if Match m0 v || existsb accepts (filters (conv s)) then []
           else [EvChanSend (In (conv s)) v])) /\
  (~ List.In (In (conv s)) (map (@ch _ _ _) (filters (conv s))) ->
   (List.In (EvChanSend (In (conv s)) v) (trace (dispatch v s)) <->
    forall f, List.In f (filters (conv s)) -> Match (m f) v = false)).
Proof.
  intros accepts deliveries. rewrite dispatch_run. simpl.
  split; [ reflexivity | split; [ reflexivity | split ] ].
  - intros m0. rewrite dispatch_run. simpl.
    unfold deliveries, accepts. destruct (Match m0 v); reflexivity.
  - intros Hfresh. subst deliveries accepts. cbv beta.
    destruct (existsb (fun f : filter => Match (m f) v) (filters (conv s))) eqn:E.
    + rewrite app_nil_r. split.
      * intros Hin. exfalso. apply Hfresh.
        apply in_map_iff in Hin. destruct Hin as (g & Hg & Hgin).
        apply filter_In in Hgin. injection Hg as Hc. apply in_map_iff.
        exists g. tauto.
      * intros Hnone. apply existsb_exists in E. destruct E as (f & Hf & Hacc).
        apply Hnone in Hf. congruence.
    + split.
      * intros _ f Hf. destruct (Match (m f) v) eqn:Ef; [ | reflexivity ].
        assert (existsb (fun f : filter => Match (m f) v) (filters (conv s)) = true)
          by (apply existsb_exists; now exists f).
        congruence.
      * intros _. apply in_or_app. right. now left.
Qed.


Lemma tag_type_cases (name : string) :
  (lookup_tag name tag_table = None /\ tag_type name = TNil) \/
  (exists t, lookup_tag name tag_table = Some t /\ tag_type name = t /\
             (t = TError \/ t = TIQ \/ t = TMessage \/ t = TPresence)).
Proof.
  unfold tag_type, tag_table, lookup_tag.
  destruct ("error" =? name)%string; [ right; exists TError; tauto | ].
  destruct ("iq" =? name)%string; [ right; exists TIQ; tauto | ].
  destruct ("message" =? name)%string; [ right; exists TMessage; tauto | ].
  destruct ("presence" =? name)%string; [ right; exists TPresence; tauto | ].
  now left.
Qed.

Lemma zero_of_type (name : string) : dyn_type (zero_of (tag_type name)) = tag_type name.
Proof.
  destruct (tag_type_cases name) as [[_ ->] | (t & _ & -> & [-> | [-> | [-> | ->]]])];
    reflexivity.
Qed.

Lemma decoded_type (start : xml.StartElement) :
  dyn_type (decoded start) = tag_type (xml.Local (xml.StartName start)).
Proof. unfold decoded. now rewrite Decode_type, zero_of_type. Qed.

Lemma decoded_not_failure (start : xml.StartElement) (c : chan) :
  sends_failure (EvChanSend c (decoded start)) = false.
Proof.
  pose proof (decoded_type start) as Ht.
  destruct (decoded start); try reflexivity. simpl in Ht.
  destruct (tag_type_cases (xml.Local (xml.StartName start)))
    as [[_ E] | (t & _ & E & [-> | [-> | [-> | ->]]])]; congruence.
Qed.

Lemma new_stanza_run (start : xml.StartElement) (s : state) :
  new_stanza start s =
  (zero_of (tag_type (xml.Local (xml.StartName start))),
   match lookup_tag (xml.Local (xml.StartName start)) tag_table with
   | Some _ => []
   | None => [EvLog (LogUnexpected start)]
   end,
   s).
Proof.
  unfold new_stanza, tag_type, tag_table, lookup_tag.
  rewrite (String.eqb_sym "error"), (String.eqb_sym "iq"),
    (String.eqb_sym "message"), (String.eqb_sym "presence").
  destruct (xml.Local (xml.StartName start) =? "error")%string; [ reflexivity | ].
  destruct (xml.Local (xml.StartName start) =? "iq")%string; [ reflexivity | ].
  destruct (xml.Local (xml.StartName start) =? "message")%string; [ reflexivity | ].
  destruct (xml.Local (xml.StartName start) =? "presence")%string; reflexivity.
Qed.

Lemma receive_run (start : xml.StartElement) (s : state) :
  receive start s =
  (tt,
   match lookup_tag (xml.Local (xml.StartName start)) tag_table with
   | Some _ => []
   | None => [EvLog (LogUnexpected start)]
   end
   ++ EvDecode (zero_of (tag_type (xml.Local (xml.StartName start)))) start
   :: match decode_error start with
      | Some e => [EvLog (LogDecodeFailed e)]
      | None => []
      end
   ++ trace (dispatch (decoded start) s),
   s).
Proof.
  unfold xmpp.receive, bind. rewrite new_stanza_run.
  unfold stream_decode, xmpp.decoded, xmpp.decode_error.
  destruct (Decode stream _ start) as [v [e | ]]; cbn [fst snd];
    unfold log, emit, ret; cbv beta iota; rewrite !dispatch_run; reflexivity.
Qed.

(** C6, as amended: the receiver makes the zero value of the stanza
    type that the table error, iq, message, presence gives for the tag
    of the element, and nil after logging when the tag is not in the
    table.  In every case it then calls [stream.Decode] on that value
    and the element, logs a decode error if there is one, and hands on
    what [Decode] left: a value of the selected type, and nil when the
    tag is not in the table. *)
Theorem receive_selects_variant (start : xml.StartElement) (s : state) :
  let name := xml.Local (xml.StartName start) in
  let target := zero_of (tag_type name) in
  result (new_stanza start s) = target /\
  dyn_type target = tag_type name /\
  dyn_type (decoded start) = tag_type name /\
  trace (receive start s) =
    match lookup_tag name tag_table with
    | Some _ => []
    | None => [EvLog (LogUnexpected start)]
    end
    ++ EvDecode target start
    :: match decode_error start with
       | Some e => [EvLog (LogDecodeFailed e)]
       | None => []
       end
    ++ trace (dispatch (decoded start) s) /\
  (lookup_tag name tag_table = None -> target = VNil /\ decoded start = VNil).
Proof.
  intros name target. rewrite new_stanza_run, receive_run.
  unfold result, trace. cbn [fst snd].
  split; [ reflexivity | ]. split; [ apply zero_of_type | ].
  split; [ apply decoded_type | ]. split; [ reflexivity | ].
  intros Hnone.
  assert (Ht : tag_type name = TNil) by (unfold tag_type; now rewrite Hnone).
  pose proof (decoded_type start) as Hd. fold name in Hd. rewrite Ht in Hd.
  subst target. rewrite Ht. split; [ reflexivity | ].
  destruct (decoded start); simpl in Hd; congruence.
Qed.

Lemma receiver_loop_run (incoming : list xml.StartElement) (err : error) (s : state) :
  receiver_loop incoming err s =
  (tt,
   flat_map (fun start => EvNext (inl start) :: trace (receive start s)) incoming
   ++ [EvNext (inr err); EvChanSend (In (conv s)) (VErr err)],
   s).
Proof.
  induction incoming as [ | start rest IH ]; [ reflexivity | ].
  change (receiver_loop (start :: rest) err)
    with (bind (stream_next (inl start))
            (fun _ => bind (receive start) (fun _ => receiver_loop rest err))).
  unfold bind, stream_next, emit. cbn [flat_map].
  rewrite (run_eta (receive start s)), receive_run.
  unfold result, final, trace. cbn [fst snd]. rewrite IH.
  cbn [app]. now rewrite <- !app_assoc.
Qed.

Lemma receiver_run (incoming : list xml.StartElement) (err : error) (s : state) :
  receiver incoming err s =
  (tt,
   (flat_map (fun start => EvNext (inl start) :: trace (receive start s)) incoming
    ++ [EvNext (inr err)])
   ++ [EvChanSend (In (conv s)) (VErr err); EvLog LogCloseReceiver; EvLog LogClose;
       EvSendEnd stream_end; EvChanClose (In (conv s))],
   s).
Proof.
  unfold xmpp.receiver, defer, bind. rewrite receiver_loop_run. simpl.
  rewrite <- !app_assoc. reflexivity.
Qed.


Lemma dispatch_in_service (start : xml.StartElement) (s : state) :
  Forall (@in_service _ _ _) (trace (dispatch (decoded start) s)).
Proof.
  rewrite dispatch_run. unfold trace. cbn [fst snd]. apply Forall_app. split.
  - apply Forall_forall. intros e He. apply in_map_iff in He.
    destruct He as (f & <- & _). split; [ apply decoded_not_failure | now split ].
  - destruct (existsb _ _); constructor; [ | constructor ].
    split; [ apply decoded_not_failure | now split ].
Qed.

Lemma receive_in_service (start : xml.StartElement) (s : state) :
  Forall (@in_service _ _ _) (trace (receive start s)).
Proof.
  rewrite receive_run. unfold trace at 1. cbn [fst snd].
  apply Forall_app. split.
  - destruct (lookup_tag _ _); repeat constructor.
  - constructor; [ now repeat split | ]. apply Forall_app. split.
    + destruct (decode_error start); repeat constructor.
    + apply dispatch_in_service.
Qed.

Lemma receiver_turns_in_service (incoming : list xml.StartElement) (s : state) :
  Forall (@in_service _ _ _)
    (flat_map (fun start => EvNext (inl start) :: trace (receive start s)) incoming).
Proof.
  induction incoming as [ | start rest IH ]; [ constructor | ].
  cbn [flat_map]. apply Forall_app. split; [ | exact IH ].
  constructor; [ now repeat split | apply receive_in_service ].
Qed.

(** *** The runs of the receiver in which an operation panics *)

Lemma broken_ret (faulty : event -> bool) (A : Type) (a : A) (s : state) :
  broken_off faulty s (ret a s) (retP a s).
Proof. unfold broken_off. simpl. repeat split. now left. Qed.

Lemma broken_this (faulty : event -> bool) (s : state) :
  broken_off faulty s (this s) (lift (@this _ _ _) s).
Proof. unfold broken_off. simpl. repeat split. now left. Qed.

Lemma broken_attempt (faulty : event -> bool) (A : Type) (e : event) (a : A)
    (s : state) :
  broken_off faulty s (a, [e], s) (attempt faulty e a s).
Proof.
  unfold broken_off, attempt. destruct (faulty e) eqn:E; simpl; repeat split.
  - right. split; [ reflexivity | ]. now exists e, [].
  - now left.
Qed.

Lemma broken_bind (faulty : event -> bool) (A B : Type) (c : M A) (cp : P A)
    (k : A -> M B) (kp : A -> P B) (s : state) :
  broken_off faulty s (c s) (cp s) ->
  (forall a, broken_off faulty s (k a s) (kp a s)) ->
  broken_off faulty s (bind c k s) (bindP cp kp s).
Proof.
  unfold broken_off, bind, bindP, result, trace, final.
  destruct (c s) as [[a t1] s1]. destruct (cp s) as [[r tp] sp]. cbn [fst snd].
  intros (-> & -> & Hc) Hk. specialize (Hk a).
  destruct (k a s) as [[b t2] s2]. cbn [fst snd] in Hk.
  destruct Hk as (-> & Hkp & Hk).
  destruct Hc as [[-> ->] | [-> (e & rest & -> & He)]].
  - destruct (kp a s) as [[rb tb] sb]. cbn [fst snd] in *. subst sb.
    split; [ reflexivity | split; [ reflexivity | ] ].
    destruct Hk as [[-> ->] | [-> (e & rest & -> & He)]].
    + now left.
    + right. split; [ reflexivity | ]. exists e, rest.
      now rewrite <- app_assoc.
  - split; [ reflexivity | split; [ reflexivity | ] ].
    right. split; [ reflexivity | ]. exists e, (rest ++ t2).
    split; [ | exact He ]. now rewrite <- app_assoc.
Qed.

Lemma broken_new_stanza (faulty : event -> bool) (start : xml.StartElement)
    (s : state) :
  broken_off faulty s (new_stanza start s) (new_stanzaP faulty start s).
Proof.
  unfold xmpp.new_stanza, xmpp.new_stanzaP.
  destruct (xml.Local (xml.StartName start) =? "error")%string;
    [ apply broken_ret | ].
  destruct (xml.Local (xml.StartName start) =? "iq")%string;
    [ apply broken_ret | ].
  destruct (xml.Local (xml.StartName start) =? "message")%string;
    [ apply broken_ret | ].
  destruct (xml.Local (xml.StartName start) =? "presence")%string;
    [ apply broken_ret | ].
  apply broken_bind; [ apply broken_attempt | intros; apply broken_ret ].
Qed.

Lemma broken_deliver (faulty : event -> bool) (v : value) (fs : list filter) :
  forall (filtered : bool) (s : state),
    broken_off faulty s (deliver fs v filtered s) (deliverP faulty fs v filtered s).
Proof.
  induction fs as [ | f rest IH ]; intros filtered s; cbn [deliver deliverP].
  - apply broken_ret.
  - destruct (Match (m f) v); [ | apply IH ].
    apply broken_bind; [ apply broken_attempt | intros; apply IH ].
Qed.

Lemma broken_dispatch (faulty : event -> bool) (v : value) (s : state) :
  broken_off faulty s (dispatch v s) (dispatchP faulty v s).
Proof.
  unfold dispatch, dispatchP.
  apply broken_bind; [ apply broken_this | intros x ].
  apply broken_bind; [ apply broken_deliver | intros filtered ].
  destruct (negb filtered); [ apply broken_attempt | apply broken_ret ].
Qed.

Lemma broken_receive (faulty : event -> bool) (start : xml.StartElement)
    (s : state) :
  broken_off faulty s (receive start s) (receiveP faulty start s).
Proof.
  unfold xmpp.receive, xmpp.receiveP.
  apply broken_bind; [ apply broken_new_stanza | intros v ].
  apply broken_bind; [ apply broken_attempt | intros [v' [e | ]] ];
    (apply broken_bind; [ apply broken_attempt || apply broken_ret
                        | intros; apply broken_dispatch ]).
Qed.

Lemma broken_receiver_loop (faulty : event -> bool)
    (incoming : list xml.StartElement) (err : error) (s : state) :
  broken_off faulty s (receiver_loop incoming err s)
    (receiver_loopP faulty incoming err s).
Proof.
  induction incoming as [ | start rest IH ];
    cbn [xmpp.receiver_loop xmpp.receiver_loopP].
  - apply broken_bind; [ apply broken_attempt | intros ].
    apply broken_bind; [ apply broken_this | intros; apply broken_attempt ].
  - apply broken_bind; [ apply broken_attempt | intros ].
    apply broken_bind; [ apply broken_receive | intros; exact IH ].
Qed.

Lemma receiver_cleanup_run (s : state) :
  bind (log LogCloseReceiver)
    (fun _ => bind Close (fun _ => bind (@this _ _ _) (fun x => chan_close (In x)))) s =
  (tt,
   [EvLog LogCloseReceiver; EvLog LogClose;
    EvSendEnd (xml.mkEnd (xml.mkName "stream" "stream"));
    @EvChanClose Error Message Presence (In (conv s))],
   s).
Proof. reflexivity. Qed.

Lemma strict_prefix (A : Type) (l rest T : list A) (e x : A) :
  l ++ e :: rest = T ++ [x] -> exists rest', T = l ++ rest'.
Proof.
  destruct (exists_last (l := e :: rest) ltac:(discriminate)) as (mid & y & Hlast).
  rewrite Hlast, app_assoc. intros H. apply app_inj_tail in H.
  destruct H as [<- _]. now exists mid.
Qed.

(** C7: however the loop of the receiver is left, by its return or by
    a panic of any of its operations, the deferred function runs
    next and last: it logs, calls [Close], which ends the stream, and
    closes [In], in that order, and before it the stream is not ended
    and no channel is closed.  The loop returns only after
    [stream.Next] has failed and the failure has been sent on [In]: on
    that path the failure sent on [In] is the one failure sent on any
    channel; when the loop panics, none has been sent.  When none of
    the operations of the loop is faulty, the run is the run in which
    every operation completes, and it returns. *)
Theorem receiver_exit (faulty : event -> bool)
    (incoming : list xml.StartElement) (err : error) (s : state) :
  let cleanup := [EvLog LogCloseReceiver; EvLog LogClose;
                  EvSendEnd (xml.mkEnd (xml.mkName "stream" "stream"));
                  EvChanClose (In (conv s))] in
  let body := receiver_loopP faulty incoming err s in
  let r := receiverP faulty incoming err s in
  trace r = trace body ++ cleanup /\
  result r = result body /\
  (exists turns,
     Forall (@in_service _ _ _) turns /\
     ((result body = Returned tt /\
       trace body = turns ++ [EvChanSend (In (conv s)) (VErr err)]) \/
      (result body = Panicked /\ trace body = turns))) /\
  (Forall (fun e => faulty e = false) (trace (receiver_loop incoming err s)) ->
   r = (Returned tt, trace (receiver incoming err s), s)).
Proof.
  intros cleanup body r.
  pose proof (broken_receiver_loop faulty incoming err s) as Hsim. fold body in Hsim.
  rewrite receiver_loop_run in Hsim.
  subst r. unfold xmpp.receiverP, deferP. fold body.
  destruct body as [[rb tb] sb].
  unfold broken_off, result, trace, final in Hsim. cbn [fst snd] in Hsim.
  destruct Hsim as (_ & -> & Hsim).
  rewrite receiver_cleanup_run. fold cleanup.
  unfold result, trace. cbn [fst snd].
  set (pulls := flat_map
                  (fun start => EvNext (inl start) :: snd (fst (receive start s)))
                  incoming) in *.
  assert (Hpulls : Forall (@in_service _ _ _)
                     (pulls ++ [@EvNext Error Message Presence (inr err)])).
  { apply Forall_app. split; [ apply receiver_turns_in_service | ].
    constructor; [ now repeat split | constructor ]. }
  split; [ reflexivity | split; [ reflexivity | split ] ].
  - destruct Hsim as [[Hres Htr] | [Hres (e & rest & Htr & He)]].
    + exists (pulls ++ [EvNext (inr err)]). split; [ exact Hpulls | left ].
      split; [ exact Hres | ]. rewrite Htr. now rewrite <- app_assoc.
    + exists tb. split; [ | right; now split ].
      change (pulls ++ [EvNext (inr err); EvChanSend (In (conv s)) (VErr err)])
        with (pulls ++ [EvNext (inr err)] ++ [EvChanSend (In (conv s)) (VErr err)])
        in Htr.
      rewrite app_assoc in Htr. symmetry in Htr.
      apply strict_prefix in Htr. destruct Htr as (rest' & Hrest).
      rewrite Hrest in Hpulls. now apply Forall_app in Hpulls.
  - intros Hnone. rewrite receiver_loop_run in Hnone.
    unfold trace in Hnone at 1. cbn [fst snd] in Hnone. fold pulls in Hnone.
    rewrite receiver_run.
    destruct Hsim as [[Hres Htr] | [_ (e & rest & Htr & He)]].
    + rewrite Hres, Htr. subst cleanup pulls. unfold trace.
      now rewrite <- !app_assoc.
    + rewrite Htr in Hnone. apply Forall_app in Hnone. destruct Hnone as [_ Hnone].
      inversion Hnone as [ | x l Hx _ ]; subst. congruence.
Qed.

Lemma sent_on_app (c : chan) (t1 t2 : list event) :
  sent_on c (t1 ++ t2) = sent_on c t1 ++ sent_on c t2.
Proof.
  induction t1 as [ | e t1 IH ]; [ reflexivity | ].
  destruct e; simpl; try exact IH.
  destruct (Nat.eqb c0 c); simpl; now rewrite IH.
Qed.

Lemma receive_inbound (start : xml.StartElement) (s : state) :
  filters (conv s) = [] ->
  sent_on (In (conv s)) (trace (receive start s)) = [decoded start].
Proof.
  intros Hnone. rewrite receive_run, dispatch_run, Hnone.
  unfold trace. cbn [fst snd]. rewrite sent_on_app.
  replace (sent_on (In (conv s))
             match lookup_tag (xml.Local (xml.StartName start)) tag_table with
             | Some _ => []
             | None => [EvLog (LogUnexpected start)]
             end) with (@nil value) by (destruct (lookup_tag _ _); reflexivity).
  cbn [app sent_on]. rewrite sent_on_app.
  replace (sent_on (In (conv s))
             match decode_error start with
             | Some e => [EvLog (LogDecodeFailed e)]
             | None => []
             end) with (@nil value) by (destruct (decode_error start); reflexivity).
  simpl. now rewrite Nat.eqb_refl.
Qed.

(** C9: with no filter registered, the values that arrive on [In] are
    what [Decode] made of the elements the stream fed, one per element
    and in the order they were fed, followed by the failure that ended
    the stream. *)
Theorem receiver_keeps_order (incoming : list xml.StartElement) (err : error)
    (s : state) :
  filters (conv s) = [] ->
  sent_on (In (conv s)) (trace (receiver incoming err s)) =
  map decoded incoming ++ [VErr err].
Proof.
  intros Hnone. rewrite receiver_run. unfold trace at 1. cbn [fst snd].
  rewrite !sent_on_app.
  assert (Hlast : forall t : list event, sent_on (In (conv s))
                    (EvChanSend (In (conv s)) (VErr err) :: EvLog LogCloseReceiver
                     :: EvLog LogClose :: EvSendEnd stream_end
                     :: EvChanClose (In (conv s)) :: t) = VErr err :: sent_on (In (conv s)) t).
  { intros t. simpl. now rewrite Nat.eqb_refl. }
  rewrite Hlast. cbn [sent_on]. rewrite app_nil_r. f_equal.
  induction incoming as [ | start rest IH ]; [ reflexivity | ].
  cbn [flat_map map]. change (EvNext (inl start) :: trace (receive start s))
    with ([EvNext (inl start)] ++ trace (receive start s)).
  rewrite !sent_on_app, receive_inbound by exact Hnone. simpl. now rewrite IH.
Qed.


Lemma run_calls_add (m0 : Matcher) (s : state) :
  result (run_calls [CallAdd m0] s) = [nextFilterID (conv s)].
Proof. reflexivity. Qed.

(** ** More on the registry *)

Lemma first_with_split (fid : FilterID) (l1 l2 : list filter) (f : filter) :
  id f = fid -> ~ List.In fid (map (@id _ _ _) l1) ->
  first_with fid (l1 ++ f :: l2) = Some f /\
  remove_first fid (l1 ++ f :: l2) = l1 ++ l2.
Proof.
  intros Hid. induction l1 as [ | g l1 IH ]; simpl; intros Hnot.
  - now rewrite Hid, Z.eqb_refl.
  - destruct (Z.eqb_spec (id g) fid) as [E | E]; [ tauto | ].
    destruct IH as [-> ->]; [ tauto | ]. now split.
Qed.

Lemma first_with_none (fid : FilterID) (fs : list filter) :
  ~ List.In fid (map (@id _ _ _) fs) -> first_with fid fs = None.
Proof.
  induction fs as [ | g fs IH ]; simpl; intros Hnot; [ reflexivity | ].
  destruct (Z.eqb_spec (id g) fid) as [E | E]; [ tauto | ]. apply IH. tauto.
Qed.

(** [RemoveFilter] read on the list: it closes the channel of the first
    entry with the identifier and leaves the list without that entry. *)
Lemma RemoveFilter_list (fid : FilterID) (s : state) :
  RemoveFilter fid s =
  match first_with fid (filters (conv s)) with
  | Some f =>
      (None, [EvChanClose (ch f)],
       mkState (made s) (set_filters (remove_first fid (filters (conv s))) (conv s)))
  | None => (Some (InvalidFilterID fid), [], s)
  end.
Proof.
  destruct (in_dec Z.eq_dec fid (ids s)) as [Hin | Hnot].
  - destruct (in_ids_split _ _ Hin) as (l1 & f & l2 & Hfs & Hid & Hn).
    subst fid. rewrite (RemoveFilter_found s l1 l2 f Hfs Hn), Hfs.
    destruct (first_with_split l1 l2 f eq_refl Hn) as [-> ->]. reflexivity.
  - rewrite RemoveFilter_not_found by exact Hnot.
    now rewrite first_with_none.
Qed.

Lemma first_with_remove_other (a b : FilterID) (fs : list filter) :
  a <> b -> first_with a (remove_first b fs) = first_with a fs.
Proof.
  intros Hab. induction fs as [ | g fs IH ]; simpl; [ reflexivity | ].
  destruct (Z.eqb_spec (id g) b) as [Eb | Eb];
    destruct (Z.eqb_spec (id g) a) as [Ea | Ea]; simpl.
  - congruence.
  - reflexivity.
  - destruct (Z.eqb_spec (id g) a); [ reflexivity | contradiction ].
  - destruct (Z.eqb_spec (id g) a); [ contradiction | exact IH ].
Qed.

Lemma remove_first_swap (a b : FilterID) (fs : list filter) :
  a <> b ->
  remove_first a (remove_first b fs) = remove_first b (remove_first a fs).
Proof.
  intros Hab. induction fs as [ | g fs IH ]; simpl; [ reflexivity | ].
  destruct (Z.eqb_spec (id g) b) as [Eb | Eb];
    destruct (Z.eqb_spec (id g) a) as [Ea | Ea]; simpl.
  - congruence.
  - destruct (Z.eqb_spec (id g) b); [ reflexivity | contradiction ].
  - destruct (Z.eqb_spec (id g) a); [ reflexivity | contradiction ].
  - destruct (Z.eqb_spec (id g) a); [ contradiction | ].
    destruct (Z.eqb_spec (id g) b); [ contradiction | ]. now rewrite IH.
Qed.

(** X1: removing the filter that [AddFilter] has just returned undoes
    the insertion in every registry, also one that already holds an
    entry with the same identifier: the new entry is the first with
    that identifier, its channel is the one closed, and the list is
    again the list from before the call; only the counter and the
    allocator have moved on. *)
Theorem AddFilter_then_RemoveFilter (m0 : Matcher) (s : state) :
  let added := AddFilter m0 s in
  RemoveFilter (fst (result added)) (final added) =
  (None, [EvChanClose (snd (result added))],
   mkState (S (made s))
     (mkXMPP (In (conv s)) (Out (conv s))
        (Int64.incr (nextFilterID (conv s))) (filters (conv s)))).
Proof.
  intros added. subst added. rewrite AddFilter_run, RemoveFilter_list.
  unfold result, final. cbn [fst snd conv filters first_with remove_first id].
  rewrite Z.eqb_refl. reflexivity.
Qed.

(** X2: removals of different identifiers do not disturb each other:
    [RemoveFilter a] returns the same and closes the same channel
    whether or not [RemoveFilter b] ran before it, and the two removals
    leave the same registry in either order. *)
Theorem RemoveFilter_independent (s : state) (a b : FilterID) :
  a <> b ->
  result (RemoveFilter a (final (RemoveFilter b s))) = result (RemoveFilter a s) /\
  trace (RemoveFilter a (final (RemoveFilter b s))) = trace (RemoveFilter a s) /\
  final (RemoveFilter a (final (RemoveFilter b s))) =
    final (RemoveFilter b (final (RemoveFilter a s))).
Proof.
  intros Hab.
  assert (Hba : b <> a) by congruence.
  rewrite (RemoveFilter_list b s), (RemoveFilter_list a s).
  destruct (first_with b (filters (conv s))) as [fb | ] eqn:Eb;
    destruct (first_with a (filters (conv s))) as [fa | ] eqn:Ea;
    unfold final; cbn [snd]; rewrite !RemoveFilter_list;
    cbn [conv made filters set_filters];
    rewrite ?(first_with_remove_other _ Hab), ?(first_with_remove_other _ Hba),
      ?Ea, ?Eb;
    unfold result, trace; cbn [fst snd];
    rewrite ?(remove_first_swap _ Hab); repeat split; reflexivity.
Qed.

Lemma run_calls_ids (cs : list call) :
  forall (k : nat) (s : state),
    (Z.of_nat k + Z.of_nat (adds cs) <= 9223372036854775808)%Z ->
    registry_inv (Z.of_nat k) s ->
    result (run_calls cs s) = map Z.of_nat (seq k (adds cs)).
Proof.
  induction cs as [ | [m0 | fid] rest IH ]; intros k s Hbound Hinv.
  - reflexivity.
  - assert (Hadds : adds (CallAdd m0 :: rest) = S (adds rest)) by reflexivity.
    rewrite Hadds in *. rewrite Nat2Z.inj_succ in Hbound.
    destruct (@registry_inv_add (Z.of_nat k) s m0 ltac:(lia) Hinv) as [Hfid Hinv'].
    replace (Z.of_nat k + 1)%Z with (Z.of_nat (S k)) in Hinv' by lia.
    change (run_calls (CallAdd m0 :: rest))
      with (bind (AddFilter m0)
              (fun x => let '(fid, _) := x in
                        bind (run_calls rest) (fun fids => ret (fid :: fids)))).
    rewrite bind_result.
    set (s1 := final (AddFilter m0 s)) in *.
    destruct (result (AddFilter m0 s)) as [fid c]. cbn [fst] in Hfid. subst fid.
    rewrite bind_result.
    rewrite (IH (S k) s1) by (exact Hinv' || lia). reflexivity.
  - assert (Hadds : adds (CallRemove fid :: rest) = adds rest) by reflexivity.
    rewrite Hadds in *.
    change (run_calls (CallRemove fid :: rest))
      with (bind (RemoveFilter fid) (fun _ => run_calls rest)).
    rewrite bind_result. apply IH; [ exact Hbound | ].
    now apply registry_inv_remove.
Qed.

(** X3: on a new conversation the identifiers count the [AddFilter]
    calls: the first call returns 0 and the call number j returns
    j - 1, whatever [RemoveFilter] calls lie in between, so an
    identifier is not handed out again after its filter has been
    removed (while the sequence holds at most 2^63 [AddFilter]
    calls). *)
Theorem AddFilter_ids_count (n : nat) (cs : list call) :
  (Z.of_nat (adds cs) <= 9223372036854775808)%Z ->
  result (run_calls cs (newXMPP n)) = map Z.of_nat (seq 0 (adds cs)).
Proof.
  intros Hbound. apply run_calls_ids; [ simpl; lia | apply registry_inv_new ].
Qed.

Lemma StronglySorted_without (R : Z -> Z -> Prop) (l1 l2 : list Z) (x : Z) :
  StronglySorted R (l1 ++ x :: l2) -> StronglySorted R (l1 ++ l2).
Proof.
  induction l1 as [ | y l1 IH ]; simpl; intros Hs.
  - now inversion Hs.
  - inversion Hs as [ | z l Hrest Hall ]; subst. constructor; [ now apply IH | ].
    apply Forall_app in Hall. destruct Hall as [H1 H2].
    apply Forall_app. split; [ exact H1 | now inversion H2 ].
Qed.

Lemma run_calls_descending (cs : list call) :
  forall (k : Z) (s : state),
    (0 <= k)%Z -> (k + Z.of_nat (adds cs) <= 9223372036854775808)%Z ->
    registry_inv k s -> StronglySorted Z.gt (ids s) ->
    StronglySorted Z.gt (ids (final (run_calls cs s))).
Proof.
  induction cs as [ | [m0 | fid] rest IH ]; intros k s Hk Hbound Hinv Hdesc.
  - exact Hdesc.
  - assert (Hadds : adds (CallAdd m0 :: rest) = S (adds rest)) by reflexivity.
    rewrite Hadds in *. rewrite Nat2Z.inj_succ in Hbound.
    destruct (@registry_inv_add k s m0 ltac:(lia) Hinv) as [Hfid Hinv'].
    change (run_calls (CallAdd m0 :: rest))
      with (bind (AddFilter m0)
              (fun x => let '(fid, _) := x in
                        bind (run_calls rest) (fun fids => ret (fid :: fids)))).
    rewrite bind_final.
    assert (Hdesc' : StronglySorted Z.gt (ids (final (AddFilter m0 s)))).
    { destruct Hinv as (_ & Hall & _).
      rewrite AddFilter_run in *. unfold ids in *. cbn [result final fst snd conv filters map id] in *.
      constructor; [ exact Hdesc | ].
      apply Forall_forall. intros i Hi. apply in_map_iff in Hi.
      destruct Hi as (f & <- & Hf). rewrite Forall_forall in Hall.
      apply Hall in Hf. rewrite Hfid. lia. }
    set (s1 := final (AddFilter m0 s)) in *.
    destruct (result (AddFilter m0 s)) as [fid c].
    rewrite bind_final. cbn [final ret snd].
    apply (IH (k + 1)%Z s1); (lia || assumption).
  - assert (Hadds : adds (CallRemove fid :: rest) = adds rest) by reflexivity.
    rewrite Hadds in *.
    change (run_calls (CallRemove fid :: rest))
      with (bind (RemoveFilter fid) (fun _ => run_calls rest)).
    rewrite bind_final. apply (IH k); try assumption.
    + now apply registry_inv_remove.
    + destruct (RemoveFilter_final s fid) as [-> | (l1 & f & l2 & Hfs & ->)];
        [ exact Hdesc | ].
      unfold ids in *. cbn [conv filters set_filters]. rewrite Hfs in Hdesc.
      rewrite map_app in *. simpl in Hdesc.
      now apply StronglySorted_without in Hdesc.
Qed.

(** X4: on a new conversation the list of the registry holds the
    filters newest first: the identifiers in the list are strictly
    decreasing from its head after any sequence of [AddFilter] and
    [RemoveFilter] calls that holds at most 2^63 [AddFilter] calls. *)
Theorem registry_newest_first (n : nat) (cs : list call) :
  (Z.of_nat (adds cs) <= 9223372036854775808)%Z ->
  StronglySorted Z.gt (ids (final (run_calls cs (newXMPP n)))).
Proof.
  intros Hbound.
  apply (@run_calls_descending cs 0%Z); [ lia | lia | apply registry_inv_new | ].
  constructor.
Qed.

Lemma to_int_not_nil (z : Z) :
  Z.to_int z <> Decimal.Pos Decimal.Nil /\ Z.to_int z <> Decimal.Neg Decimal.Nil.
Proof.
  destruct z as [ | p | p ]; simpl; split; try discriminate;
    intros H; injection H as H; now apply DecimalPos.Unsigned.to_uint_nonnil in H.
Qed.

(** X5: the message of a FilterID used as an error names the
    identifier: different identifiers have different messages. *)
Theorem FilterID_Error_distinct (a b : FilterID) :
  a <> b -> FilterID_Error a <> FilterID_Error b.
Proof.
  unfold FilterID_Error. intros Hab H. cbn [append] in H.
  injection H as H.
  apply (f_equal DecimalString.NilZero.int_of_string) in H.
  destruct (to_int_not_nil a) as [Ha1 Ha2]. destruct (to_int_not_nil b) as [Hb1 Hb2].
  rewrite !DecimalString.NilZero.isi in H by assumption.
  injection H as H. now apply DecimalZ.to_int_inj in H.
Qed.

(** ** More on the receiver *)

Lemma deliveries_sends (v : value) (fs : list filter) (cs : list chan) :
  (forall f, List.In f fs -> List.In (ch f) cs) ->
  Forall (sends_to cs v)
    (map (fun f => EvChanSend (ch f) v) (List.filter (fun f => Match (m f) v) fs)).
Proof.
  intros Hsub. apply Forall_forall. intros e He. apply in_map_iff in He.
  destruct He as (f & <- & Hf). apply filter_In in Hf. simpl. split; [ | reflexivity ].
  now apply Hsub.
Qed.

(** X6: the receiver drops no stanza and invents no channel: whatever
    value it dispatches is sent at least once, every send carries that
    value, and every send is on [In] or on the channel of a registered
    filter. *)
Theorem dispatch_reaches (v : value) (s : state) :
  trace (dispatch v s) <> [] /\
  Forall (sends_to (open_chans s) v) (trace (dispatch v s)).
Proof.
  rewrite dispatch_run. unfold trace, open_chans. cbn [fst snd]. split.
  - destruct (existsb _ _) eqn:E.
    + apply existsb_exists in E. destruct E as (f & Hf & Hacc).
      assert (Hin : List.In f (List.filter (fun f => Match (m f) v) (filters (conv s))))
        by (apply filter_In; now split).
      destruct (List.filter _ _); [ contradiction | discriminate ].
    + intros H. apply app_eq_nil in H. destruct H as [_ H]. discriminate H.
  - apply Forall_app. split.
    + apply deliveries_sends. intros f Hf. right. now apply in_map.
    + destruct (existsb _ _); constructor; [ | constructor ].
      simpl. split; [ now left | reflexivity ].
Qed.

Lemma sent_on_pre (c : chan) (start : xml.StartElement) :
  sent_on c
    (match lookup_tag (xml.Local (xml.StartName start)) tag_table with
     | Some _ => []
     | None => [EvLog (LogUnexpected start)]
     end : list event) = [].
Proof. destruct (lookup_tag _ _); reflexivity. Qed.

Lemma sent_on_decode_log (c : chan) (start : xml.StartElement) :
  sent_on c
    (match decode_error start with
     | Some e => [EvLog (LogDecodeFailed e)]
     | None => []
     end : list event) = [].
Proof. destruct (decode_error start); reflexivity. Qed.

Lemma receive_sent_on (c : chan) (start : xml.StartElement) (s : state) :
  sent_on c (trace (receive start s)) =
  sent_on c (trace (dispatch (decoded start) s)).
Proof.
  rewrite receive_run. unfold trace at 1. cbn [fst snd].
  rewrite sent_on_app, sent_on_pre. cbn [app sent_on].
  now rewrite sent_on_app, sent_on_decode_log.
Qed.

Lemma receiver_sent_on (c : chan) (incoming : list xml.StartElement)
    (err : error) (s : state) :
  sent_on c (trace (receiver incoming err s)) =
  flat_map (fun start => sent_on c (trace (dispatch (decoded start) s))) incoming
  ++ (if Nat.eqb (In (conv s)) c then [VErr err] else []).
Proof.
  rewrite receiver_run. unfold trace at 1. cbn [fst snd].
  rewrite !sent_on_app. cbn [sent_on]. rewrite app_nil_r.
  destruct (Nat.eqb (In (conv s)) c); f_equal;
    induction incoming as [ | start rest IH ]; try reflexivity;
    cbn [flat_map];
    change (EvNext (inl start) :: trace (receive start s))
      with ([EvNext (inl start)] ++ trace (receive start s));
    rewrite !sent_on_app, receive_sent_on, IH; reflexivity.
Qed.

Lemma sent_on_outside (c : chan) (v : value) (fs : list filter) :
  ~ List.In c (map (@ch _ _ _) fs) ->
  sent_on c (map (fun f => EvChanSend (ch f) v)
               (List.filter (fun f => Match (m f) v) fs)) = [].
Proof.
  induction fs as [ | g fs IH ]; simpl; intros Hnot; [ reflexivity | ].
  destruct (Match (m g) v); simpl; [ | apply IH; tauto ].
  destruct (Nat.eqb_spec (ch g) c) as [E | E]; [ tauto | apply IH; tauto ].
Qed.

Lemma sent_on_own (f : filter) (v : value) (fs : list filter) :
  NoDup (map (@ch _ _ _) fs) -> List.In f fs ->
  sent_on (ch f) (map (fun g => EvChanSend (ch g) v)
                    (List.filter (fun g => Match (m g) v) fs)) =
  if Match (m f) v then [v] else [].
Proof.
  induction fs as [ | g fs IH ]; simpl; intros Hnd Hin; [ contradiction | ].
  inversion Hnd as [ | c l Hfresh Hrest ]; subst.
  destruct Hin as [-> | Hin].
  - destruct (Match (m f) v); simpl.
    + rewrite Nat.eqb_refl. now rewrite sent_on_outside.
    + now apply sent_on_outside.
  - assert (Hne : ch g <> ch f).
    { intros E. apply Hfresh. rewrite E. now apply in_map. }
    destruct (Match (m g) v); simpl; [ | now apply IH ].
    destruct (Nat.eqb_spec (ch g) (ch f)); [ contradiction | now apply IH ].
Qed.

Lemma flat_map_filter (A : Type) (p : A -> bool) (l : list A) :
  flat_map (fun x => if p x then [x] else []) l = List.filter p l.
Proof.
  induction l as [ | x l IH ]; simpl; [ reflexivity | ].
  destruct (p x); simpl; now rewrite IH.
Qed.

Lemma flat_map_decoded (p : value -> bool) (incoming : list xml.StartElement) :
  flat_map (fun start => if p (decoded start) then [decoded start] else []) incoming =
  List.filter p (map decoded incoming).
Proof.
  induction incoming as [ | x l IH ]; simpl; [ reflexivity | ].
  destruct (p (decoded x)); simpl; now rewrite IH.
Qed.

(** X7: with [In] and the channels of the filters all distinct, the
    receiver hands every registered filter exactly the decoded values
    its matcher accepts, in the order their elements were fed, and hands
    [In] exactly the values no matcher accepts, in that order, followed
    by the failure that ended the stream. *)
Theorem receiver_routes (incoming : list xml.StartElement) (err : error)
    (s : state) :
  NoDup (open_chans s) ->
  (forall f, List.In f (filters (conv s)) ->
     sent_on (ch f) (trace (receiver incoming err s)) =
     List.filter (fun v => Match (m f) v) (map decoded incoming)) /\
  sent_on (In (conv s)) (trace (receiver incoming err s)) =
    List.filter
      (fun v => negb (existsb (fun f => Match (m f) v) (filters (conv s))))
      (map decoded incoming)
    ++ [VErr err].
Proof.
  unfold open_chans. intros Hnd.
  inversion Hnd as [ | c l Hfresh Hrest ]; subst. split.
  - intros f Hf. rewrite receiver_sent_on.
    assert (Hne : In (conv s) <> ch f).
    { intros E. apply Hfresh. rewrite E. now apply in_map. }
    destruct (Nat.eqb_spec (In (conv s)) (ch f)); [ contradiction | ].
    rewrite app_nil_r, <- flat_map_decoded.
    apply flat_map_ext. intros start.
    rewrite dispatch_run. unfold trace. cbn [fst snd].
    rewrite sent_on_app, sent_on_own by assumption.
    destruct (existsb _ _); cbn [sent_on]; [ apply app_nil_r | ].
    destruct (Nat.eqb_spec (In (conv s)) (ch f)); [ contradiction | apply app_nil_r ].
  - rewrite receiver_sent_on, Nat.eqb_refl. f_equal.
    rewrite <- flat_map_decoded. apply flat_map_ext. intros start.
    rewrite dispatch_run. unfold trace. cbn [fst snd].
    rewrite sent_on_app, sent_on_outside by assumption.
    destruct (existsb _ _); cbn [sent_on negb app]; [ reflexivity | ].
    now rewrite Nat.eqb_refl.
Qed.

Lemma on_stream_dispatch (v : value) (s : state) :
  List.filter (@on_stream _ _ _) (trace (dispatch v s)) = [].
Proof.
  rewrite dispatch_run. unfold trace. cbn [fst snd]. rewrite filter_app.
  replace (List.filter (@on_stream _ _ _)
             (if existsb (fun f => Match (m f) v) (filters (conv s))
              then [] else [EvChanSend (In (conv s)) v])) with (@nil event)
    by (destruct (existsb _ _); reflexivity).
  rewrite app_nil_r.
  induction (List.filter (fun f => Match (m f) v) (filters (conv s)))
    as [ | g l IH ]; [ reflexivity | exact IH ].
Qed.

Lemma on_stream_receive (start : xml.StartElement) (s : state) :
  List.filter (@on_stream _ _ _) (trace (receive start s)) =
  [EvDecode (zero_of (tag_type (xml.Local (xml.StartName start)))) start].
Proof.
  rewrite receive_run. unfold trace at 1. cbn [fst snd].
  rewrite filter_app.
  replace (List.filter (@on_stream _ _ _)
             match lookup_tag (xml.Local (xml.StartName start)) tag_table with
             | Some _ => []
             | None => [EvLog (LogUnexpected start)]
             end) with (@nil event) by (destruct (lookup_tag _ _); reflexivity).
  cbn [List.filter on_stream app]. f_equal. rewrite filter_app.
  replace (List.filter (@on_stream _ _ _)
             match decode_error start with
             | Some e => [EvLog (LogDecodeFailed e)]
             | None => []
             end) with (@nil event) by (destruct (decode_error start); reflexivity).
  apply on_stream_dispatch.
Qed.

(** X8: towards the stream the receiver does nothing but this: for
    each element, in order, one [Next] that returns it and one [Decode]
    of it into the zero value chosen for its tag, whether or not an
    earlier [Decode] returned an error; then the [Next] that fails, and
    one [SendEnd] of stream:stream.  It never calls [Send]. *)
Theorem receiver_stream_calls (incoming : list xml.StartElement) (err : error)
    (s : state) :
  List.filter (@on_stream _ _ _) (trace (receiver incoming err s)) =
  flat_map
    (fun start =>
       [EvNext (inl start);
        EvDecode (zero_of (tag_type (xml.Local (xml.StartName start)))) start])
    incoming
  ++ [EvNext (inr err); EvSendEnd (xml.mkEnd (xml.mkName "stream" "stream"))].
Proof.
  rewrite receiver_run. unfold trace at 1. cbn [fst snd].
  rewrite !filter_app. cbn [List.filter on_stream app].
  rewrite <- app_assoc. f_equal.
  induction incoming as [ | start rest IH ]; [ reflexivity | ].
  cbn [flat_map]. rewrite filter_app, IH.
  cbn [List.filter on_stream]. now rewrite on_stream_receive.
Qed.

Lemma closed_chans_app (t1 t2 : list event) :
  closed_chans (t1 ++ t2) = closed_chans t1 ++ closed_chans t2.
Proof.
  induction t1 as [ | e t1 IH ]; [ reflexivity | ].
  destruct e; simpl; now rewrite ?IH.
Qed.

Lemma closed_chans_in_service (t : list event) :
  Forall (@in_service _ _ _) t -> closed_chans t = [].
Proof.
  induction 1 as [ | e t He Ht IH ]; [ reflexivity | ].
  destruct He as (_ & _ & Hc). destruct e; simpl in *; try exact IH. discriminate.
Qed.

Lemma closed_chans_forwarded (c : chan) (l : list value) :
  closed_chans (flat_map (fun v => [EvChanRecv c v; @EvSend Error Message Presence v]) l)
  = [].
Proof. induction l as [ | v l IH ]; [ reflexivity | exact IH ]. Qed.

Lemma sender_run (outgoing : list value) (s : state) :
  sender outgoing s =
  (tt,
   flat_map (fun v => [EvChanRecv (Out (conv s)) v; EvSend v]) outgoing
   ++ [EvLog LogCloseStream; EvLog LogClose; EvSendEnd stream_end],
   s).
Proof. unfold sender, bind. rewrite sender_loop_run. reflexivity. Qed.

(** X9: neither task touches the filters when it ends: the receiver
    leaves the registry as it found it and closes one channel, [In];
    the sender closes none.  The channels of the filters that are still
    registered stay open when the stream is closed. *)
Theorem tasks_leave_filters (incoming : list xml.StartElement) (err : error)
    (outgoing : list value) (s : state) :
  final (receiver incoming err s) = s /\
  closed_chans (trace (receiver incoming err s)) = [In (conv s)] /\
  closed_chans (trace (sender outgoing s)) = [].
Proof.
  split; [ now rewrite receiver_run | split ].
  - rewrite receiver_run. unfold trace at 1. cbn [fst snd].
    rewrite !closed_chans_app.
    rewrite (closed_chans_in_service (receiver_turns_in_service incoming s)).
    reflexivity.
  - rewrite sender_run. unfold trace. cbn [fst snd].
    rewrite closed_chans_app, closed_chans_forwarded. reflexivity.
Qed.

Lemma receiver_silent_on (c : chan) (incoming : list xml.StartElement)
    (err : error) (s : state) :
  ~ List.In c (open_chans s) ->
  sent_on c (trace (receiver incoming err s)) = [].
Proof.
  unfold open_chans. intros Hnot. rewrite receiver_sent_on.
  assert (Hne : In (conv s) <> c) by (intros E; apply Hnot; now left).
  destruct (Nat.eqb_spec (In (conv s)) c); [ contradiction | ].
  rewrite app_nil_r.
  induction incoming as [ | start rest IH ]; [ reflexivity | ].
  cbn [flat_map]. rewrite IH, app_nil_r.
  rewrite dispatch_run. unfold trace. cbn [fst snd].
  rewrite sent_on_app, sent_on_outside by (intros E; apply Hnot; now right).
  destruct (existsb _ _); cbn [sent_on app]; [ reflexivity | ].
  destruct (Nat.eqb_spec (In (conv s)) c); [ contradiction | reflexivity ].
Qed.

(** X10: once [RemoveFilter] has closed a channel, the receiver sends
    nothing on it any more, whatever arrives afterwards, provided [In]
    and the channels of the filters were all distinct: no send can hit
    the closed channel. *)
Theorem removed_filter_gets_nothing (fid : FilterID) (c : chan)
    (incoming : list xml.StartElement) (err : error) (s : state) :
  NoDup (open_chans s) ->
  trace (RemoveFilter fid s) = [EvChanClose c] ->
  sent_on c (trace (receiver incoming err (final (RemoveFilter fid s)))) = [].
Proof.
  intros Hnd Hclosed. apply receiver_silent_on.
  destruct (in_dec Z.eq_dec fid (ids s)) as [Hin | Hnot].
  - destruct (in_ids_split _ _ Hin) as (l1 & f & l2 & Hfs & Hid & Hn).
    subst fid. rewrite (RemoveFilter_found s l1 l2 f Hfs Hn) in *.
    unfold trace, final in *. cbn [fst snd] in *.
    injection Hclosed as <-.
    unfold open_chans in *. cbn [conv In filters set_filters]. rewrite Hfs in Hnd.
    rewrite map_app in *. cbn [map] in Hnd.
    change (NoDup ((In (conv s) :: map (@ch _ _ _) l1)
                   ++ ch f :: map (@ch _ _ _) l2)) in Hnd.
    now apply NoDup_remove_2 in Hnd.
  - rewrite RemoveFilter_not_found in Hclosed by exact Hnot. discriminate Hclosed.
Qed.

Lemma IQResult_on_query (id0 : string) (r : IQ) :
  Match (@IQResult Error Message Presence id0) (VIQ r) = (ID r =? id0)%string.
Proof.
  unfold Match, IQResult, MatcherFunc. now destruct (ID r =? id0)%string.
Qed.

(** What the receiver sends on the channel of a filter just added,
    when that channel is in use nowhere else: the values the matcher
    of the filter accepts. *)
Lemma sent_on_new_filter (fid : FilterID) (m0 : Matcher) (v : value) (n k : nat)
    (i o : chan) (next : FilterID) (fs : list filter) :
  i <> k -> ~ List.In k (map (@ch _ _ _) fs) ->
  sent_on k (trace (dispatch v (mkState n (mkXMPP i o next (mkFilter fid m0 k :: fs)))))
  = if Match m0 v then [v] else [].
Proof.
  intros Hin Hfresh. rewrite dispatch_run. unfold trace.
  cbn [fst snd conv filters In List.filter existsb m ch].
  destruct (Match m0 v); cbn [orb map sent_on app ch].
  - rewrite Nat.eqb_refl, app_nil_r. now rewrite sent_on_outside.
  - rewrite sent_on_app, sent_on_outside by exact Hfresh.
    destruct (existsb _ _); cbn [sent_on app]; [ reflexivity | ].
    destruct (Nat.eqb_spec i k); [ contradiction | reflexivity ].
Qed.

(** X11: a call of [SendRecv] gets the reply to its request from the
    receiver: in a conversation whose next channel is in use nowhere,
    when the receiver, while the call waits, dispatches values of
    which none is accepted by [IQResult iq.ID] until a Query [r] with
    the identifier of the request comes, the call receives [r] on the
    channel of the filter it has registered and returns it with a nil
    error. *)
Theorem SendRecv_reply_correlates (iq r : IQ) (pre post : list value) (s : state) :
  ~ List.In (made s) (open_chans s) ->
  ID r = ID iq ->
  Forall (fun v => Match (IQResult (ID iq)) v = false) pre ->
  SendRecv (fun _ => false) iq (receiver_feeds (made s) (pre ++ VIQ r :: post)) s =
  (Returned (Some r, None),
   [EvChanSend (Out (conv s)) (VIQ iq); EvChanRecv (made s) (VIQ r);
    EvChanClose (made s)],
   mkState (S (made s))
     (mkXMPP (In (conv s)) (Out (conv s)) (Int64.incr (nextFilterID (conv s)))
        (filters (conv s)))).
Proof.
  unfold open_chans. intros Hfresh Hid Hpre.
  assert (Hne : In (conv s) <> made s) by (intros E; apply Hfresh; now left).
  assert (Hold : ~ List.In (made s) (map (@ch _ _ _) (filters (conv s))))
    by (intros E; apply Hfresh; now right).
  rewrite SendRecv_run. cbv zeta.
  assert (Hfed : receiver_feeds (made s) (pre ++ VIQ r :: post)
                   (mkXMPP (In (conv s)) (Out (conv s))
                      (Int64.incr (nextFilterID (conv s)))
                      (mkFilter (nextFilterID (conv s)) (IQResult (ID iq)) (made s)
                       :: filters (conv s))) = VIQ r).
  { unfold receiver_feeds. rewrite flat_map_app. cbn [flat_map].
    rewrite sent_on_new_filter by assumption.
    rewrite IQResult_on_query, Hid, String.eqb_refl.
    replace (flat_map _ pre) with (@nil value); [ reflexivity | ].
    symmetry. induction Hpre as [ | v pre Hv Hpre IH ]; [ reflexivity | ].
    cbn [flat_map]. rewrite sent_on_new_filter by assumption. rewrite Hv.
    exact IH. }
  rewrite Hfed. reflexivity.
Qed.

(** X12: two waiting [SendRecv] calls with different identifiers do not
    take each other's replies.  In a conversation in which [In] and the
    channels of the filters are distinct and the next two channels are
    in use nowhere, with the filters [IQResult a] and then [IQResult b]
    added, a Query with identifier [a] is sent once on the channel of
    the first and neither on the channel of the second nor on [In], and
    a Query with identifier [b] once on the channel of the second and
    neither on the channel of the first nor on [In]. *)
Theorem correlation_filters_independent (a b : string) (r : IQ) (s : state) :
  a <> b ->
  NoDup (open_chans s) ->
  ~ List.In (made s) (open_chans s) ->
  ~ List.In (S (made s)) (open_chans s) ->
  let s1 := final (AddFilter (IQResult a) s) in
  let s2 := final (AddFilter (IQResult b) s1) in
  let t := trace (dispatch (VIQ r) s2) in
  let older :=
    map (fun f => EvChanSend (ch f) (VIQ r))
      (List.filter (fun f => Match (m f) (VIQ r)) (filters (conv s))) in
  (ID r = a ->
   t = EvChanSend (made s) (VIQ r) :: older /\
   sent_on (made s) t = [VIQ r] /\
   sent_on (S (made s)) t = [] /\
   sent_on (In (conv s)) t = []) /\
  (ID r = b ->
   t = EvChanSend (S (made s)) (VIQ r) :: older /\
   sent_on (S (made s)) t = [VIQ r] /\
   sent_on (made s) t = [] /\
   sent_on (In (conv s)) t = []).
Proof.
  intros Hab Hnd Hc1 Hc2 s1 s2 t older. unfold open_chans in Hnd, Hc1, Hc2.
  inversion Hnd as [ | x l Hin _ ]; subst.
  assert (H1 : ~ List.In (made s) (map (@ch _ _ _) (filters (conv s))))
    by (intros E; apply Hc1; now right).
  assert (H2 : ~ List.In (S (made s)) (map (@ch _ _ _) (filters (conv s))))
    by (intros E; apply Hc2; now right).
  assert (Hn1 : made s <> In (conv s)) by (intros E; apply Hc1; now left).
  assert (Hn2 : S (made s) <> In (conv s)) by (intros E; apply Hc2; now left).
  assert (Hfs : filters (conv s2) =
                mkFilter (nextFilterID (conv s1)) (IQResult b) (S (made s))
                :: mkFilter (nextFilterID (conv s)) (IQResult a) (made s)
                :: filters (conv s)) by reflexivity.
  assert (HIn : In (conv s2) = In (conv s)) by reflexivity.
  assert (Hold : forall c, ~ List.In c (map (@ch _ _ _) (filters (conv s))) ->
                           sent_on c older = []).
  { intros c Hc. now apply sent_on_outside. }
  assert (Ht : t =
    map (fun f => EvChanSend (ch f) (VIQ r))
      ((if (ID r =? b)%string
        then [mkFilter (nextFilterID (conv s1)) (IQResult b) (S (made s))] else [])
       ++ (if (ID r =? a)%string
           then [mkFilter (nextFilterID (conv s)) (IQResult a) (made s)] else [])
       ++ List.filter (fun f => Match (m f) (VIQ r)) (filters (conv s)))
    ++ (if (ID r =? b)%string || ((ID r =? a)%string
            || existsb (fun f => Match (m f) (VIQ r)) (filters (conv s)))
        then [] else [EvChanSend (In (conv s)) (VIQ r)])).
  { subst t. rewrite dispatch_run, Hfs, HIn. unfold trace.
    cbn [fst snd List.filter existsb m ch]. rewrite !IQResult_on_query.
    destruct (ID r =? b)%string; destruct (ID r =? a)%string; reflexivity. }
  split; intros Hid; rewrite Ht, Hid, String.eqb_refl.
  - destruct (String.eqb_spec a b); [ contradiction | ].
    cbn [orb map app ch sent_on]. fold older. rewrite app_nil_r.
    rewrite Nat.eqb_refl, !Hold by assumption.
    destruct (Nat.eqb_spec (made s) (S (made s))); [ lia | ].
    destruct (Nat.eqb_spec (made s) (In (conv s))); [ contradiction | ].
    repeat split.
  - destruct (String.eqb_spec b a); [ congruence | ].
    cbn [orb map app ch sent_on]. fold older. rewrite app_nil_r.
    rewrite Nat.eqb_refl, !Hold by assumption.
    destruct (Nat.eqb_spec (S (made s)) (made s)); [ lia | ].
    destruct (Nat.eqb_spec (S (made s)) (In (conv s))); [ contradiction | ].
    repeat split.
Qed.

(** X13: an element whose tag is not error, iq, message or presence
    reaches the application as nil: when no matcher accepts nil, the
    one value the receiver sends on [In] for that element is nil. *)
Theorem receive_unknown_tag_sends_nil (start : xml.StartElement) (s : state) :
  lookup_tag (xml.Local (xml.StartName start)) tag_table = None ->
  (forall f, List.In f (filters (conv s)) -> Match (m f) VNil = false) ->
  sent_on (In (conv s)) (trace (receive start s)) = [VNil] /\
  forall c, c <> In (conv s) -> sent_on c (trace (receive start s)) = [].
Proof.
  intros Hnone Hrej.
  assert (Hnil : decoded start = VNil).
  { pose proof (decoded_type start) as Ht. unfold tag_type in Ht.
    rewrite Hnone in Ht. destruct (decoded start); simpl in Ht; congruence. }
  assert (Hnobody : existsb (fun f => Match (m f) VNil) (filters (conv s)) = false).
  { destruct (existsb _ _) eqn:E; [ | reflexivity ].
    apply existsb_exists in E. destruct E as (f & Hf & Hacc).
    apply Hrej in Hf. congruence. }
  assert (Hnone' : List.filter (fun f => Match (m f) VNil) (filters (conv s)) = []).
  { induction (filters (conv s)) as [ | g l IH ]; [ reflexivity | ].
    simpl in *. rewrite (Hrej g) by now left.
    apply IH. intros f Hf. apply Hrej. now right.
    apply orb_false_iff in Hnobody. tauto. }
  split; [ | intros c Hc ]; rewrite receive_sent_on, Hnil, dispatch_run;
    unfold trace; cbn [fst snd]; rewrite Hnobody, Hnone'; cbn [map app sent_on].
  - now rewrite Nat.eqb_refl.
  - destruct (Nat.eqb_spec (In (conv s)) c); [ congruence | reflexivity ].
Qed.

End Properties.

(** * Concrete runs *)

(** A registry in which the filter 0 is registered behind the
    filter 1, and what removing it leaves. *)
Lemma RemoveFilter_frame_witness :
  List.In 0%Z (ids Sample.two_filters) /\
  exists l1 f l2,
    filters (conv Sample.two_filters) = l1 ++ f :: l2 /\ id f = 0%Z /\
    result (RemoveFilter 0%Z Sample.two_filters) = None /\
    trace (RemoveFilter 0%Z Sample.two_filters) = [EvChanClose (ch f)] /\
    filters (conv (final (RemoveFilter 0%Z Sample.two_filters))) = l1 ++ l2 /\
    nextFilterID (conv (final (RemoveFilter 0%Z Sample.two_filters))) =
      nextFilterID (conv Sample.two_filters) /\
    In (conv (final (RemoveFilter 0%Z Sample.two_filters))) =
      In (conv Sample.two_filters) /\
    Out (conv (final (RemoveFilter 0%Z Sample.two_filters))) =
      Out (conv Sample.two_filters) /\
    made (final (RemoveFilter 0%Z Sample.two_filters)) = made Sample.two_filters.
Proof.
  assert (H : List.In 0%Z (ids Sample.two_filters)) by (right; left; reflexivity).
  split; [ exact H | exact (RemoveFilter_frame Sample.two_filters 0%Z H) ].
Defined.

(** A registry with distinct identifiers in which 1 is registered and
    7 is not: removing 1 succeeds once, removing 7 fails. *)
Lemma RemoveFilter_removes_or_reports_witness :
  List.In 1%Z (ids Sample.two_filters) /\
  NoDup (ids Sample.two_filters) /\
  ~ List.In 7%Z (ids Sample.two_filters) /\
  (let s' := final (RemoveFilter 1%Z Sample.two_filters) in
   ~ List.In 1%Z (ids s') /\
   RemoveFilter 1%Z s' = (Some (InvalidFilterID 1%Z), [], s')) /\
  RemoveFilter 7%Z Sample.two_filters =
    (Some (InvalidFilterID 7%Z), [], Sample.two_filters).
Proof.
  assert (H1 : List.In 1%Z (ids Sample.two_filters)) by (left; reflexivity).
  assert (H2 : NoDup (ids Sample.two_filters)).
  { repeat constructor; simpl; intuition discriminate. }
  assert (H3 : ~ List.In 7%Z (ids Sample.two_filters)).
  { simpl. intuition discriminate. }
  split; [ exact H1 | split; [ exact H2 | split; [ exact H3 | ] ] ].
  split.
  - destruct (proj1 (RemoveFilter_removes_or_reports Sample.two_filters 1%Z) H1)
      as (l1 & f & l2 & _ & _ & _ & _ & Hsecond).
    exact (Hsecond H2).
  - exact (proj2 (RemoveFilter_removes_or_reports Sample.two_filters 7%Z) H3).
Defined.

(** A history within the bound: three [AddFilter] calls, one removal
    that finds its filter and one that does not. *)
Lemma AddFilter_fresh_ids_witness :
  (Z.of_nat (adds Sample.short_history) <= 9223372036854775808)%Z /\
  let r := run_calls Sample.short_history (newXMPP 0) in
  let in_use := In (conv (final r)) :: Out (conv (final r))
                :: map (@ch _ _ _) (filters (conv (final r))) in
  StronglySorted Z.lt (result r) /\
  NoDup (result r) /\
  NoDup (ids (final r)) /\
  NoDup in_use /\
  ~ List.In (made (final r)) in_use.
Proof.
  assert (H : (Z.of_nat (adds Sample.short_history) <= 9223372036854775808)%Z).
  { vm_compute. discriminate. }
  split; [ exact H | ].
  exact (proj2 (@AddFilter_fresh_ids unit unit unit) 0%nat Sample.short_history H).
Defined.

Lemma seq_head (a n : nat) : n <> 0%nat -> List.In a (seq a n).
Proof. destruct n as [ | n ]; [ tauto | intros _; now left ]. Qed.

Lemma limit_positive : Sample.limit <> 0%nat.
Proof.
  unfold Sample.limit. intros H. apply (f_equal Z.of_nat) in H.
  rewrite Z2Nat.id in H by discriminate. discriminate H.
Qed.

(** C3, as stated, fails when the int64 counter wraps: a caller that
    2^63 times adds a filter and removes it again is handed the
    identifiers 0 to 2^63 - 1, and the next [AddFilter] hands out
    -2^63, which is below all of them. *)
Lemma AddFilter_ids_wrap_around :
  ~ StronglySorted Z.lt (result (run_calls Sample.long_history Sample.start)).
Proof.
  unfold Sample.long_history. intros Hsorted.
  destruct (run_calls_app (churn Sample.any 0 Sample.limit) [CallAdd Sample.any]
              Sample.start) as [Hres _].
  rewrite Hres in Hsorted. clear Hres.
  destruct (churn_run Sample.any Sample.limit 0 Sample.start eq_refl)
    as (Hids & Hnext & _).
  rewrite Hids, run_calls_add, Hnext in Hsorted.
  assert (Hlimit : Z.of_nat (0 + Sample.limit) = 9223372036854775808%Z).
  { unfold Sample.limit. rewrite Nat.add_0_l. apply Z2Nat.id. discriminate. }
  rewrite Hlimit, Int64Facts.wrap_at_limit in Hsorted.
  assert (Hfirst : List.In 0%Z
                     (map (fun j => Int64.wrap (Z.of_nat j)) (seq 0 Sample.limit))).
  { apply in_map_iff. exists 0%nat. split; [ reflexivity | ].
    apply seq_head, limit_positive. }
  assert (Hlast : List.In Int64.min_int [Int64.min_int]) by (left; reflexivity).
  pose proof (StronglySorted_across _ _ _ _ Hsorted Hfirst Hlast) as Hlt.
  discriminate Hlt.
Qed.

(** C2, as stated, fails for a Query that is not a result: the error
    reply to the request is accepted by the correlation filter of the
    request, and once delivered it is returned with a nil error. *)
Lemma SendRecv_returns_error_reply :
  is_query_result Sample.error_reply = false /\
  Match (IQResult (ID Sample.request)) Sample.error_reply = true /\
  result (SendRecv Sample.no_fault Sample.request (fun _ => Sample.error_reply)
            Sample.start) =
    Returned (Some (mkIQ "42" "error"), None).
Proof. repeat split. Qed.

(** The channel 3 has been closed.  On a new conversation the loop
    never sends on it and the receiver returns; with the filter for
    the replies to the request on channel 3, the send of the reply
    panics: the message has been delivered, the reply has been pulled
    and decoded, and the deferred function still ends the stream and
    closes [In]. *)
Lemma receiver_exit_witness :
  Forall (fun e => Sample.chan3_closed e = false)
    (trace (receiver_loop tt tt tt Sample.stream Sample.traffic Sample.eof
              Sample.start)) /\
  receiverP tt tt tt Sample.stream Sample.chan3_closed Sample.traffic Sample.eof
    Sample.start =
  (Returned tt,
   trace (receiver tt tt tt Sample.stream Sample.traffic Sample.eof Sample.start),
   Sample.start) /\
  receiverP tt tt tt Sample.stream Sample.chan3_closed Sample.traffic Sample.eof
    Sample.two_filters =
  (Panicked,
   [EvNext (inl (Sample.elem "message" []));
    EvDecode (VMessage tt) (Sample.elem "message" []);
    EvChanSend 2 (VMessage tt);
    EvNext (inl (Sample.elem "iq" [("id", "42"); ("type", "result")]%string));
    EvDecode (VIQ zeroIQ) (Sample.elem "iq" [("id", "42"); ("type", "result")]%string);
    EvLog LogCloseReceiver; EvLog LogClose;
    EvSendEnd (xml.mkEnd (xml.mkName "stream" "stream")); EvChanClose 0],
   Sample.two_filters).
Proof.
  assert (H : Forall (fun e => Sample.chan3_closed e = false)
                (trace (receiver_loop tt tt tt Sample.stream Sample.traffic
                          Sample.eof Sample.start))).
  { repeat constructor. }
  split; [ exact H | split; [ | reflexivity ] ].
  exact (proj2 (proj2 (proj2
           (receiver_exit tt tt tt Sample.stream Sample.chan3_closed Sample.traffic
              Sample.eof Sample.start))) H).
Defined.

(** A registry in which [In] is the channel 0 and the filters have the
    channels 3 and 2: both accept the error reply, the newer is served
    first, and nothing is sent on [In]. *)
Lemma dispatch_routes_witness :
  ~ List.In (In (conv Sample.two_filters))
      (map (@ch _ _ _) (filters (conv Sample.two_filters))) /\
  (List.In (EvChanSend (In (conv Sample.two_filters)) Sample.error_reply)
     (trace (dispatch Sample.error_reply Sample.two_filters)) <->
   forall f, List.In f (filters (conv Sample.two_filters)) ->
             Match (m f) Sample.error_reply = false) /\
  trace (dispatch Sample.error_reply Sample.two_filters) =
    [EvChanSend 3 Sample.error_reply; EvChanSend 2 Sample.error_reply].
Proof.
  assert (H : ~ List.In (In (conv Sample.two_filters))
                (map (@ch _ _ _) (filters (conv Sample.two_filters)))).
  { simpl. intuition discriminate. }
  split; [ exact H | ]. split; [ | reflexivity ].
  exact (proj2 (proj2 (proj2
           (dispatch_routes Sample.error_reply Sample.two_filters))) H).
Defined.

(** The tag features is not in the table: the target and the value
    handed on are nil. *)
Lemma receive_selects_variant_witness :
  lookup_tag (xml.Local (xml.StartName Sample.features)) tag_table = None /\
  zero_of tt tt tt (tag_type (xml.Local (xml.StartName Sample.features))) = VNil /\
  decoded tt tt tt Sample.stream Sample.features = VNil.
Proof.
  assert (H : lookup_tag (xml.Local (xml.StartName Sample.features)) tag_table
              = None) by reflexivity.
  split; [ exact H | ].
  exact (proj2 (proj2 (proj2 (proj2
           (receive_selects_variant tt tt tt Sample.stream Sample.features
              Sample.start)))) H).
Defined.

(** C6, as stated, fails on the decode step: for the element features,
    whose tag is not in the table, [stream.Decode] is called, with
    nil. *)
Lemma receive_decodes_unknown_tag :
  lookup_tag (xml.Local (xml.StartName Sample.features)) tag_table = None /\
  trace (receive tt tt tt Sample.stream Sample.features Sample.start) =
    [EvLog (LogUnexpected Sample.features);
     EvDecode VNil Sample.features;
     EvLog (LogDecodeFailed (StreamError "non-pointer passed to Unmarshal"));
     EvChanSend 0 VNil].
Proof. split; reflexivity. Qed.

(** No filter is registered, and the scenario of the spec arrives on
    [In] as a Message, the Query 1 of kind result and a Presence,
    followed by the failure that ends the stream. *)
Lemma receiver_keeps_order_witness :
  filters (conv Sample.start) = [] /\
  sent_on (In (conv Sample.start))
    (trace (receiver tt tt tt Sample.stream Sample.feed Sample.eof Sample.start)) =
  [VMessage tt; VIQ (mkIQ "1" "result"); VPresence tt; VErr Sample.eof].
Proof.
  assert (H : filters (conv Sample.start) = []) by reflexivity.
  split; [ exact H | ].
  exact (receiver_keeps_order tt tt tt Sample.stream Sample.feed Sample.eof
           Sample.start H).
Defined.

(** Removing 1 and removing 0 from the registry with both. *)
Lemma RemoveFilter_independent_witness :
  1%Z <> 0%Z /\
  trace (RemoveFilter 1%Z (final (RemoveFilter 0%Z Sample.two_filters))) =
    [EvChanClose 3] /\
  filters (conv (final (RemoveFilter 1%Z (final (RemoveFilter 0%Z Sample.two_filters)))))
    = filters (conv (final (RemoveFilter 0%Z (final (RemoveFilter 1%Z Sample.two_filters))))).
Proof.
  assert (H : 1%Z <> 0%Z) by discriminate.
  destruct (RemoveFilter_independent Sample.two_filters H) as (_ & Ht & Hf).
  split; [ exact H | split; [ exact Ht | now rewrite Hf ] ].
Defined.

(** The three [AddFilter] calls of the short history return 0, 1
    and 2. *)
Lemma AddFilter_ids_count_witness :
  (Z.of_nat (adds Sample.short_history) <= 9223372036854775808)%Z /\
  result (run_calls Sample.short_history (newXMPP 0)) = [0; 1; 2]%Z.
Proof.
  assert (H : (Z.of_nat (adds Sample.short_history) <= 9223372036854775808)%Z).
  { vm_compute. discriminate. }
  split; [ exact H | exact (@AddFilter_ids_count unit unit unit 0 Sample.short_history H) ].
Defined.

(** After the short history the registry holds the filters 2 and 1, in
    that order. *)
Lemma registry_newest_first_witness :
  (Z.of_nat (adds Sample.short_history) <= 9223372036854775808)%Z /\
  StronglySorted Z.gt (ids (final (run_calls Sample.short_history (newXMPP 0)))) /\
  ids (final (run_calls Sample.short_history (newXMPP 0))) = [2; 1]%Z.
Proof.
  assert (H : (Z.of_nat (adds Sample.short_history) <= 9223372036854775808)%Z).
  { vm_compute. discriminate. }
  split; [ exact H | split; [ | reflexivity ] ].
  exact (@registry_newest_first unit unit unit 0 Sample.short_history H).
Defined.

(** The messages of the identifiers 7 and -7. *)
Lemma FilterID_Error_distinct_witness :
  7%Z <> (-7)%Z /\
  FilterID_Error 7%Z <> FilterID_Error (-7)%Z /\
  FilterID_Error 7%Z = "Invalid filter id: 7"%string /\
  FilterID_Error (-7)%Z = "Invalid filter id: -7"%string.
Proof.
  assert (H : 7%Z <> (-7)%Z) by discriminate.
  split; [ exact H | split; [ exact (FilterID_Error_distinct H) | split; reflexivity ] ].
Defined.

(** What [IQResult "42"] makes of the error reply to the request. *)
Lemma IQResult_accepts_witness :
  Match (IQResult "42") Sample.error_reply = true /\
  exists iq, Sample.error_reply = VIQ iq /\ ID iq = "42"%string.
Proof.
  assert (H : Match (IQResult "42") Sample.error_reply = true) by reflexivity.
  split; [ exact H | exact (proj1 (IQResult_accepts "42" Sample.error_reply) H) ].
Defined.

(** The registry with the filter for the replies to the request ahead
    of the filter that accepts everything: the former is handed the
    reply, the latter the message, the reply and the nil of the unknown
    element, and [In] only the failure. *)
Lemma receiver_routes_witness :
  NoDup (open_chans Sample.two_filters) /\
  sent_on 3 (trace (receiver tt tt tt Sample.stream Sample.traffic Sample.eof
                      Sample.two_filters)) = [Sample.reply] /\
  sent_on 2 (trace (receiver tt tt tt Sample.stream Sample.traffic Sample.eof
                      Sample.two_filters)) = [VMessage tt; Sample.reply; VNil] /\
  sent_on 0 (trace (receiver tt tt tt Sample.stream Sample.traffic Sample.eof
                      Sample.two_filters)) = [VErr Sample.eof].
Proof.
  assert (H : NoDup (open_chans Sample.two_filters)).
  { repeat constructor; simpl; intuition discriminate. }
  destruct (receiver_routes tt tt tt Sample.stream Sample.traffic Sample.eof H)
    as [Hf Hin].
  split; [ exact H | ].
  split; [ exact (Hf (mkFilter 1%Z (IQResult "42") 3) (or_introl eq_refl)) | ].
  split; [ exact (Hf (mkFilter 0%Z Sample.any 2) (or_intror (or_introl eq_refl))) | ].
  exact Hin.
Defined.

(** After the filter 1 has been removed its channel 3 gets nothing,
    though the reply to the request arrives. *)
Lemma removed_filter_gets_nothing_witness :
  NoDup (open_chans Sample.two_filters) /\
  trace (RemoveFilter 1%Z Sample.two_filters) = [EvChanClose 3] /\
  sent_on 3 (trace (receiver tt tt tt Sample.stream Sample.traffic Sample.eof
                      (final (RemoveFilter 1%Z Sample.two_filters)))) = [].
Proof.
  assert (H : NoDup (open_chans Sample.two_filters)).
  { repeat constructor; simpl; intuition discriminate. }
  assert (Hc : trace (RemoveFilter 1%Z Sample.two_filters) = [EvChanClose 3])
    by reflexivity.
  split; [ exact H | split; [ exact Hc | ] ].
  exact (removed_filter_gets_nothing tt tt tt Sample.stream 1%Z Sample.traffic
           Sample.eof H Hc).
Defined.

(** A message and then the reply arrive while the call waits on a new
    conversation: the call returns the reply. *)
Lemma SendRecv_reply_correlates_witness :
  ~ List.In (made Sample.start) (open_chans Sample.start) /\
  ID (mkIQ "42" "result") = ID Sample.request /\
  Forall (fun v : value unit unit unit =>
            Match (IQResult (ID Sample.request)) v = false) [VMessage tt] /\
  SendRecv Sample.no_fault Sample.request
    (receiver_feeds (made Sample.start) Sample.arrivals) Sample.start =
  (Returned (Some (mkIQ "42" "result"), None),
   [EvChanSend 1 (VIQ Sample.request); EvChanRecv 2 Sample.reply; EvChanClose 2],
   mkState 3 (mkXMPP 0 1 1%Z [])).
Proof.
  assert (H1 : ~ List.In (made Sample.start) (open_chans Sample.start)).
  { simpl. intuition discriminate. }
  assert (H2 : ID (mkIQ "42" "result") = ID Sample.request) by reflexivity.
  assert (H3 : Forall (fun v : value unit unit unit =>
                         Match (IQResult (ID Sample.request)) v = false)
                 [VMessage tt]) by (repeat constructor).
  split; [ exact H1 | split; [ exact H2 | split; [ exact H3 | ] ] ].
  exact (@SendRecv_reply_correlates unit unit unit Sample.request
           (mkIQ "42" "result") [VMessage tt] [] Sample.start H1 H2 H3).
Defined.

(** Two calls wait for the replies 1 and 2 on a new conversation: the
    reply 1 goes to the channel 2 of the first, the reply 2 to the
    channel 3 of the second, and nothing to [In], the channel 0. *)
Lemma correlation_filters_independent_witness :
  "1"%string <> "2"%string /\
  NoDup (open_chans Sample.start) /\
  ~ List.In (made Sample.start) (open_chans Sample.start) /\
  ~ List.In (S (made Sample.start)) (open_chans Sample.start) /\
  (let t := trace (dispatch (VIQ (mkIQ "1" "result"))
                     (final (AddFilter (IQResult "2")
                               (final (AddFilter (IQResult "1") Sample.start))))) in
   t = [EvChanSend 2 (VIQ (mkIQ "1" "result"))] /\
   sent_on 2 t = [VIQ (mkIQ "1" "result")] /\ sent_on 3 t = [] /\ sent_on 0 t = []) /\
  (let t := trace (dispatch (VIQ (mkIQ "2" "result"))
                     (final (AddFilter (IQResult "2")
                               (final (AddFilter (IQResult "1") Sample.start))))) in
   t = [EvChanSend 3 (VIQ (mkIQ "2" "result"))] /\
   sent_on 3 t = [VIQ (mkIQ "2" "result")] /\ sent_on 2 t = [] /\ sent_on 0 t = []).
Proof.
  assert (H : "1"%string <> "2"%string) by discriminate.
  assert (Hnd : NoDup (open_chans Sample.start)).
  { repeat constructor. simpl. tauto. }
  assert (H1 : ~ List.In (made Sample.start) (open_chans Sample.start)).
  { simpl. intuition discriminate. }
  assert (H2 : ~ List.In (S (made Sample.start)) (open_chans Sample.start)).
  { simpl. intuition discriminate. }
  split; [ exact H | split; [ exact Hnd | split; [ exact H1 | split; [ exact H2 | ] ] ] ].
  split.
  - exact (proj1 (correlation_filters_independent (mkIQ "1" "result") H Hnd H1 H2)
             eq_refl).
  - exact (proj2 (correlation_filters_independent (mkIQ "2" "result") H Hnd H1 H2)
             eq_refl).
Defined.

(** The element features on a new conversation: nil arrives on [In]. *)
Lemma receive_unknown_tag_sends_nil_witness :
  lookup_tag (xml.Local (xml.StartName Sample.features)) tag_table = None /\
  (forall f, List.In f (filters (conv Sample.start)) -> Match (m f) VNil = false) /\
  sent_on (In (conv Sample.start))
    (trace (receive tt tt tt Sample.stream Sample.features Sample.start)) = [VNil].
Proof.
  assert (H1 : lookup_tag (xml.Local (xml.StartName Sample.features)) tag_table
               = None) by reflexivity.
  assert (H2 : forall f, List.In f (filters (conv Sample.start)) ->
                         Match (m f) VNil = false) by (intros f []).
  split; [ exact H1 | split; [ exact H2 | ] ].
  exact (proj1 (receive_unknown_tag_sends_nil tt tt tt Sample.stream
                  Sample.features Sample.start H1 H2)).
Defined.
